(** * Yunshu memory engine: BM25 index and collection manager

    Shallow embedding of
    [Yunshu_System/Core_Layer/Agent_Core/memory_engine.py]
    (classes [SimpleBM25] and [MemoryManager]).

    Conventions of the embedding.
    - A Python [str] is a list of Unicode code points ([pystr]).
    - A Python [int] is a [Z]; a Python [float] is a real number: the
      arithmetic of the scores is exact, binary64 rounding is not modelled.
    - A [dict] or [Counter] used only through lookups is a [gmap]; the
      manager's [engines] dict, whose iteration order is observable, is
      an association list in insertion order.
    - An exception is a value of [exn]; a method that may raise returns
      a [result].
    - The file system is what the manager observes of it: the entries of
      [novels_root], which is a directory or does not exist, and the
      sidecar files by path.  Paths are POSIX paths with case-sensitive
      names and no symbolic links.  A collection name is taken at its
      word only when it is a single path component ([plain_name]); a
      statement that depends on which directory or which file a name
      denotes carries that hypothesis.
    - A file that exists can be read, and a file write runs to
      completion: [save] is the state after a write that returned.  What
      holds only if a write returns is stated for the runs that return.
    - [load] reads every attribute at the type [save] wrote it with; a
      statement on what loading an arbitrary file leaves in the cache
      carries the hypothesis that the file is absent, is not JSON, or
      was written by [save]. *)

From Stdlib Require Import ZArith List Reals Lra Lia Permutation Sorted Ascii String.
From stdpp Require Import base option list gmap fin_maps pretty sorting.

Local Open Scope Z_scope.

(** ** Python strings *)

Definition char := N.
Abbreviation pystr := (list N).

(** ASCII literal to [pystr]. *)
Fixpoint py (s : string) : pystr :=
  match s with
  | EmptyString => []
  | String a r => N_of_ascii a :: py r
  end.
Arguments py : simpl never.

(** [s[:n]] and [s[i:j]] for non-negative bounds. *)
Definition slice {A} (l : list A) (i j : nat) : list A :=
  take (j - i) (drop i l).

(** [seq[:k]] for any integer [k]: a negative bound counts from the end. *)
Definition py_prefix {A} (l : list A) (k : Z) : list A :=
  if (0 <=? k)%Z then take (Z.to_nat k) l
  else take (length l - Z.to_nat (- k)) l.

(** [s.endswith(suffix)] *)
Definition endswith (s suffix : pystr) : bool :=
  bool_decide (drop (length s - length suffix) s = suffix).

(** ** Exceptions *)

Inductive exn :=
| ZeroDivisionError
| IndexError
| KeyError
| TypeError
| JSONDecodeError
| FileNotFoundError.

Inductive result (A : Type) :=
| Ok (a : A)
| Raise (e : exn).
Arguments Ok {A} a.
Arguments Raise {A} e.

#[export] Instance result_ret : MRet result := λ A a, Ok a.
#[export] Instance result_bind : MBind result := λ A B k r,
  match r with
  | Ok a => k a
  | Raise e => Raise e
  end.

(** [l[i]] with a non-negative index. *)
Definition getitem {A} (l : list A) (i : nat) : result A :=
  match l !! i with
  | Some a => Ok a
  | None => Raise IndexError
  end.

(** A loop whose body may raise: the first exception ends it. *)
Fixpoint for_each {A B} (f : A → result B) (l : list A) : result (list B) :=
  match l with
  | [] => Ok []
  | a :: l' => b ← f a; bs ← for_each f l'; Ok (b :: bs)
  end.

(** ** Documents and the index *)

(** [doc['meta']]: the two entries [build_novel_index] writes. *)
Record meta := { path : pystr; filename : pystr }.

(** A document dict: [{'content': str, 'meta': dict}]. *)
Record document := { content : pystr; doc_meta : meta }.

(** The attributes of a [SimpleBM25] object once [fit] or [load] has run.
    The constructor only records [k1] and [b]; [fit] takes them as its
    first arguments. *)
Record SimpleBM25 := {
  k1 : R;
  b : R;
  avgdl : R;
  doc_count : Z;
  idf : gmap pystr R;
  doc_lengths : list Z;
  documents : list document;
  doc_term_counts : list (gmap pystr Z)
}.

(** ** JSON values

    What [json.load] returns and [json.dump] accepts.  The text of a file
    is not modelled: a file holds a JSON value, or bytes that [json.load]
    rejects. *)

#[local] Unset Elimination Schemes.
Inductive json :=
| JNull
| JBool (v : bool)
| JInt (z : Z)
| JFloat (r : R)
| JStr (s : pystr)
| JArr (l : list json)
| JObj (items : list (pystr * json)).
#[local] Set Elimination Schemes.

(** The dict a sequence of key/value pairs builds: a later pair
    overrides an earlier one with the same key. *)
Definition py_dict {V} (items : list (pystr * V)) : gmap pystr V :=
  list_to_map (reverse items).

(** [d.items()] *)
Definition dict_items {V} (d : gmap pystr V) : list (pystr * V) := map_to_list d.

(** [d[key]] *)
Definition getkey {V} (key : pystr) (d : gmap pystr V) : result V :=
  match d !! key with
  | Some v => Ok v
  | None => Raise KeyError
  end.

Definition as_dict (j : json) : result (gmap pystr json) :=
  match j with
  | JObj items => Ok (py_dict items)
  | _ => Raise TypeError
  end.

Definition as_list (j : json) : result (list json) :=
  match j with
  | JArr l => Ok l
  | _ => Raise TypeError
  end.

Definition as_str (j : json) : result pystr :=
  match j with
  | JStr s => Ok s
  | _ => Raise TypeError
  end.

Definition as_int (j : json) : result Z :=
  match j with
  | JInt z => Ok z
  | _ => Raise TypeError
  end.

(** A number used in float arithmetic: an [int] is converted. *)
Definition as_float (j : json) : result R :=
  match j with
  | JFloat r => Ok r
  | JInt z => Ok (IZR z)
  | _ => Raise TypeError
  end.

(** A JSON object whose values all decode with [f]. *)
Definition as_dict_of {V} (f : json → result V) (j : json) : result (gmap pystr V) :=
  match j with
  | JObj items =>
      vs ← for_each (λ kv, v ← f kv.2; Ok (kv.1, v)) items;
      Ok (py_dict vs)
  | _ => Raise TypeError
  end.

Definition as_list_of {V} (f : json → result V) (j : json) : result (list V) :=
  l ← as_list j; for_each f l.

(** Files that hold JSON, by path: [None] is content [json.load] rejects. *)
Abbreviation disk := (gmap pystr (option json)).

(** ** The manager and the directory it reads *)

(** A regular file met by [os.walk(novel_dir)], other than the sidecar:
    its name, [os.path.relpath(file_path, novels_root)], and what
    [open(...).read()] gives ([None]: it raises). *)
Record txtfile := { file : pystr; relpath : pystr; read : option pystr }.

(** An entry of [novels_root.iterdir()]. *)
Inductive entry :=
| NotDir
| Dir (walk : list txtfile).

(** [listing] is [None] when [novels_root] does not exist; [files] holds
    the sidecar files by path.  Collection names are single path
    components. *)
Record filesystem := { listing : option (list (pystr * entry)); files : disk }.

(** [engines] is the cache dict, in insertion order. *)
Record MemoryManager := { novels_root : pystr; engines : list (pystr * SimpleBM25) }.

(** A formatted result of [query]. *)
Record hit := {
  score : R;
  novel : pystr;
  hit_filename : pystr;
  hit_path : pystr;
  preview : pystr
}.

(** [d[key]] and [key in d] on an insertion-ordered dict. *)
Definition dict_lookup {V} (key : pystr) (d : list (pystr * V)) : option V :=
  snd <$> find (λ kv, bool_decide (kv.1 = key)) d.

Definition getkey_ordered {V} (key : pystr) (d : list (pystr * V)) : result V :=
  match dict_lookup key d with
  | Some v => Ok v
  | None => Raise KeyError
  end.

(** [d[key] = v]: an existing key keeps its place, a new one goes last. *)
Fixpoint dict_set {V} (key : pystr) (v : V) (d : list (pystr * V)) : list (pystr * V) :=
  match d with
  | [] => [(key, v)]
  | (k, x) :: d' => if decide (k = key) then (k, v) :: d' else (k, x) :: dict_set key v d'
  end.

Section Engine.

(** The character class [\w] of Python's [re] on [str] patterns is read
    from the Unicode database; the table is a parameter. *)
Context (unicode_word : char → bool).

(** ** SimpleBM25._tokenize *)

(** [re.sub(r'[^\w\u4e00-\u9fff]', '', text)] keeps the characters of
    [\w] and those from U+4E00 to U+9FFF. *)
Definition keep_char (c : char) : bool :=
  unicode_word c || ((0x4e00 <=? c)%N && (c <=? 0x9fff)%N).

Definition normalize (text : pystr) : pystr := filter (λ c, keep_char c = true) text.

Definition _tokenize (text : pystr) : list pystr :=
  let text := normalize text in
  if (length text <? 2)%nat then [text]
  else map (λ i, slice text i (i + 2)) (seq 0 (length text - 1)).


(** [c[term]] on a [Counter]: a missing key counts 0. *)
Definition count (c : gmap pystr Z) (term : pystr) : Z := default 0 (c !! term).

(** One step of [Counter.update]: [c[term] += 1]. *)
Definition incr (c : gmap pystr Z) (term : pystr) : gmap pystr Z :=
  <[term := count c term + 1]> c.

(** [Counter(terms)] *)
Definition Counter (terms : list pystr) : gmap pystr Z := foldl incr ∅ terms.

(** [term_counts.keys()] *)
Definition keys {V} (m : gmap pystr V) : list pystr := (map_to_list m).*1.

(** ** SimpleBM25.fit *)

(** State of the first loop of [fit]:
    [(doc_lengths, total_length, doc_term_counts)]. *)
Definition fit_step (st : list Z * Z * list (gmap pystr Z)) (doc : document)
  : list Z * Z * list (gmap pystr Z) :=
  let '(lengths, total_length, counts) := st in
  let terms := _tokenize (content doc) in
  let length := Z.of_nat (length terms) in
  (lengths ++ [length], total_length + length, counts ++ [Counter terms]).

(** The second loop: [df.update(term_counts.keys())] for every document. *)
Definition doc_freq (counts : list (gmap pystr Z)) : gmap pystr Z :=
  foldl (λ df term_counts, foldl incr df (keys term_counts)) ∅ counts.

(** [math.log((doc_count - freq + 0.5) / (freq + 0.5) + 1)] *)
Definition idf_value (doc_count freq : Z) : R :=
  ln ((IZR (doc_count - freq) + 0.5) / (IZR freq + 0.5) + 1).

Definition fit (k1 b : R) (documents : list document) : SimpleBM25 :=
  let doc_count := Z.of_nat (length documents) in
  let '(lengths, total_length, counts) := foldl fit_step ([], 0, []) documents in
  let avgdl := if (0 <? doc_count)%Z then (IZR total_length / IZR doc_count)%R else 0%R in
  let df := doc_freq counts in
  {| k1 := k1; b := b; avgdl := avgdl; doc_count := doc_count;
     idf := idf_value doc_count <$> df;
     doc_lengths := lengths; documents := documents;
     doc_term_counts := counts |}.

(** ** SimpleBM25.search *)

#[export] Instance R_eq_dec : EqDecision R := Req_dec_T.
#[export] Instance Rlt_decision : RelDecision Rlt := Rlt_dec.

(** [x / y] on floats, taken as exact reals: a zero divisor raises. *)
Definition fdiv (x y : R) : result R :=
  if decide (y = 0%R) then Raise ZeroDivisionError else Ok (x / y)%R.

(** A loop that threads an accumulator through a body that may raise. *)
Fixpoint foldlM {A S} (f : S → A → result S) (s : S) (l : list A) : result S :=
  match l with
  | [] => Ok s
  | a :: l' => s' ← f s a; foldlM f s' l'
  end.

(** [range(n)] *)
Definition range (n : Z) : list nat := seq 0 (Z.to_nat n).

(** Body of the loop over the query terms. *)
Definition term_step (self : SimpleBM25) (doc_len : Z) (term_counts : gmap pystr Z)
    (score : R) (term : pystr) : result R :=
  match idf self !! term with
  | None => Ok score
  | Some w =>
      let freq := count term_counts term in
      let numerator := (w * IZR freq * (k1 self + 1))%R in
      ratio ← fdiv (b self * IZR doc_len) (avgdl self);
      let denominator := (IZR freq + k1 self * (1 - b self + ratio))%R in
      q ← fdiv numerator denominator;
      Ok (score + q)%R
  end.

(** The score the loop over the query terms leaves for document [i]. *)
Definition doc_score (self : SimpleBM25) (query_terms : list pystr) (i : nat) : result R :=
  doc_len ← getitem (doc_lengths self) i;
  term_counts ← getitem (doc_term_counts self) i;
  foldlM (term_step self doc_len term_counts) 0%R query_terms.

(** Body of the loop over the documents. *)
Definition search_step (self : SimpleBM25) (query_terms : list pystr)
    (scores : list (R * document)) (i : nat) : result (list (R * document)) :=
  score ← doc_score self query_terms i;
  if decide (0 < score)%R then
    doc ← getitem (documents self) i;
    Ok (scores ++ [(score, doc)])
  else Ok scores.

(** [list.sort(key=..., reverse=True)]: stable, largest key first; among
    equal keys the earlier element stays first. *)
Fixpoint insert_desc {A} (key : A → R) (x : A) (l : list A) : list A :=
  match l with
  | [] => [x]
  | y :: l' => if decide (key x < key y)%R then y :: insert_desc key x l' else x :: l
  end.

Definition sort_desc {A} (key : A → R) (l : list A) : list A :=
  foldr (insert_desc key) [] l.

Definition search (self : SimpleBM25) (query : pystr) (top_k : Z)
  : result (list (R * document)) :=
  let query_terms := _tokenize query in
  scores ← foldlM (search_step self query_terms) [] (range (doc_count self));
  Ok (py_prefix (sort_desc fst scores) top_k).

(** ** SimpleBM25.save and SimpleBM25.load *)

Definition doc_to_json (d : document) : json :=
  JObj [ (py "content", JStr (content d));
         (py "meta", JObj [ (py "path", JStr (path (doc_meta d)));
                            (py "filename", JStr (filename (doc_meta d))) ]) ].

(** A dict with string keys as a JSON object. *)
Definition obj_of {V} (f : V → json) (d : gmap pystr V) : json :=
  JObj (map (λ kv, (kv.1, f kv.2)) (dict_items d)).

(** The [data] dict of [save]. *)
Definition to_json (self : SimpleBM25) : json :=
  JObj [ (py "k1", JFloat (k1 self));
         (py "b", JFloat (b self));
         (py "avgdl", JFloat (avgdl self));
         (py "doc_count", JInt (doc_count self));
         (py "idf", obj_of JFloat (idf self));
         (py "doc_lengths", JArr (map JInt (doc_lengths self)));
         (py "documents", JArr (map doc_to_json (documents self)));
         (py "doc_term_counts",
            JArr (map (obj_of JInt) (doc_term_counts self))) ].

Definition save (self : SimpleBM25) (path : pystr) (d : disk) : disk :=
  <[path := Some (to_json self)]> d.

Definition doc_of_json (j : json) : result document :=
  d ← as_dict j;
  c ← getkey (py "content") d ≫= as_str;
  m ← getkey (py "meta") d ≫= as_dict;
  p ← getkey (py "path") m ≫= as_str;
  f ← getkey (py "filename") m ≫= as_str;
  Ok {| content := c; doc_meta := {| path := p; filename := f |} |}.

(** The attribute assignments of [load], each field read at its type: a
    missing key raises [KeyError] as in Python; a value of another type is
    refused here, where Python would fail at its first use in [search]. *)
Definition of_json (j : json) : result SimpleBM25 :=
  data ← as_dict j;
  k1 ← getkey (py "k1") data ≫= as_float;
  b ← getkey (py "b") data ≫= as_float;
  avgdl ← getkey (py "avgdl") data ≫= as_float;
  doc_count ← getkey (py "doc_count") data ≫= as_int;
  idf ← getkey (py "idf") data ≫= as_dict_of as_float;
  doc_lengths ← getkey (py "doc_lengths") data ≫= as_list_of as_int;
  documents ← getkey (py "documents") data ≫= as_list_of doc_of_json;
  doc_term_counts ← getkey (py "doc_term_counts") data ≫= as_list_of (as_dict_of as_int);
  Ok {| k1 := k1; b := b; avgdl := avgdl; doc_count := doc_count; idf := idf;
        doc_lengths := doc_lengths; documents := documents;
        doc_term_counts := doc_term_counts |}.

Definition load (path : pystr) (d : disk) : result SimpleBM25 :=
  match d !! path with
  | None => Raise FileNotFoundError
  | Some None => Raise JSONDecodeError
  | Some (Some j) => of_json j
  end.


(** ** MemoryManager *)

(** A name that is a single path component, as [iterdir] gives them:
    not empty, not "." or "..", and without "/" or NUL.  For such a name
    [novels_root / name] is the entry of that name in the root; any other
    string resolves elsewhere ("" and "." to the root itself, "a/" to
    "a", "a/b" below an entry, "/a" outside the root). *)
Definition plain_name (name : pystr) : bool :=
  bool_decide (name ≠ [] ∧ name ≠ py "." ∧ name ≠ py ".." ∧
               (47%N ∉ name) ∧ (0%N ∉ name)).

(** [novels_root / novel_name / ".yunshu_memory.json"], for a plain
    name. *)
Definition _get_index_path (self : MemoryManager) (novel_name : pystr) : pystr :=
  novels_root self ++ py "/" ++ novel_name ++ py "/.yunshu_memory.json".

Definition set_engine (self : MemoryManager) (novel_name : pystr) (engine : SimpleBM25)
  : MemoryManager :=
  {| novels_root := novels_root self;
     engines := dict_set novel_name engine (engines self) |}.

(** Body of the loop of [_preload_indices]; the [except] clause absorbs
    whatever [load] raises. *)
Definition preload_item (fs : filesystem) (self : MemoryManager) (item : pystr * entry)
  : MemoryManager :=
  match item.2 with
  | Dir _ =>
      let novel_name := item.1 in
      let index_path := _get_index_path self novel_name in
      if decide (is_Some (files fs !! index_path)) then
        match load index_path (files fs) with
        | Ok engine => set_engine self novel_name engine
        | Raise _ => self
        end
      else self
  | NotDir => self
  end.

Definition _preload_indices (fs : filesystem) (self : MemoryManager) : MemoryManager :=
  match listing fs with
  | None => self
  | Some items => foldl (preload_item fs) self items
  end.

(** [MemoryManager(novels_root)] *)
Definition init (fs : filesystem) (novels_root : pystr) : MemoryManager :=
  _preload_indices fs {| novels_root := novels_root; engines := [] |}.

(** Body of the walk of [build_novel_index]: a file that cannot be read
    is reported and skipped. *)
Definition read_step (documents : list document) (f : txtfile) : list document :=
  if endswith (file f) (py ".txt") then
    match read f with
    | Some content =>
        documents ++ [ {| content := content;
                          doc_meta := {| path := relpath f; filename := file f |} |} ]
    | None => documents
    end
  else documents.

(** [novel_dir.exists()] and what [os.walk(novel_dir)] visits, for a
    plain name: the entry of that name in the root. *)
Definition novel_dir (fs : filesystem) (novel_name : pystr) : option (list txtfile) :=
  items ← listing fs;
  e ← dict_lookup novel_name items;
  Some (match e with Dir walk => walk | NotDir => [] end).

Definition build_novel_index (fs : filesystem) (self : MemoryManager) (novel_name : pystr)
  : (bool * string) * filesystem * MemoryManager :=
  match novel_dir fs novel_name with
  | None => ((false, "Novel directory not found"%string), fs, self)
  | Some walk =>
      let documents := foldl read_step [] walk in
      match documents with
      | [] => ((false, "No documents found"%string), fs, self)
      | _ =>
          let engine := fit 1.5 0.75 documents in
          let index_path := _get_index_path self novel_name in
          let fs' := {| listing := listing fs;
                        files := save engine index_path (files fs) |} in
          ((true, ("Indexed " +:+ pretty (length documents) +:+ " chapters.")%string),
           fs', set_engine self novel_name engine)
      end
  end.

Definition format_hit (novel_name : pystr) (r : R * document) : hit :=
  {| score := r.1;
     novel := novel_name;
     hit_filename := filename (doc_meta r.2);
     hit_path := path (doc_meta r.2);
     preview := take 200 (content r.2) ++ py "..." |}.

(** The part of [query] below the cache check. *)
Definition query_cached (self : MemoryManager) (novel_name query_text : pystr) (top_k : Z)
  : result (list hit) :=
  engine ← getkey_ordered novel_name (engines self);
  results ← search engine query_text top_k;
  Ok (map (format_hit novel_name) results).

Definition query (fs : filesystem) (self : MemoryManager)
    (novel_name query_text : pystr) (top_k : Z)
  : result (list hit) * filesystem * MemoryManager :=
  match dict_lookup novel_name (engines self) with
  | Some _ => (query_cached self novel_name query_text top_k, fs, self)
  | None =>
      let index_path := _get_index_path self novel_name in
      if decide (is_Some (files fs !! index_path)) then
        match load index_path (files fs) with
        | Ok engine =>
            let self := set_engine self novel_name engine in
            (query_cached self novel_name query_text top_k, fs, self)
        | Raise e => (Raise e, fs, self)
        end
      else
        let '((success, msg), fs, self) := build_novel_index fs self novel_name in
        if success then (query_cached self novel_name query_text top_k, fs, self)
        else (Ok [], fs, self)
  end.

(** The build loop of [search_all]. *)
Definition build_item (st : filesystem * MemoryManager) (item : pystr * entry)
  : filesystem * MemoryManager :=
  match item.2 with
  | Dir _ => let '(_, fs, self) := build_novel_index st.1 st.2 item.1 in (fs, self)
  | NotDir => st
  end.

(** The query loop of [search_all], over the keys of [engines]. *)
Fixpoint query_each (fs : filesystem) (self : MemoryManager) (names : list pystr)
    (query_text : pystr) (top_k : Z) (all_results : list hit)
  : result (list hit) * filesystem * MemoryManager :=
  match names with
  | [] => (Ok all_results, fs, self)
  | novel_name :: names' =>
      let '(r, fs, self) := query fs self novel_name query_text top_k in
      match r with
      | Ok results => query_each fs self names' query_text top_k (all_results ++ results)
      | Raise e => (Raise e, fs, self)
      end
  end.

Definition search_all (fs : filesystem) (self : MemoryManager) (query_text : pystr) (top_k : Z)
  : result (list hit) * filesystem * MemoryManager :=
  let self := _preload_indices fs self in
  let '(fs, self) :=
    match engines self, listing fs with
    | [], Some items => foldl build_item (fs, self) items
    | _, _ => (fs, self)
    end in
  let '(r, fs, self) := query_each fs self (engines self).*1 query_text top_k [] in
  (all_results ← r; Ok (py_prefix (sort_desc score all_results) top_k), fs, self).


(** ** The ranking as the specification words it (§4.2, §4.3) *)

(** freq(t, i): how often term [t] occurs among the tokens of a document. *)
Definition freq (t : pystr) (d : document) : Z :=
  Z.of_nat (length (filter (λ x, x = t) (_tokenize (content d)))).

(** len(i): the token count of a document. *)
Definition len (d : document) : Z := Z.of_nat (length (_tokenize (content d))).

(** df: the number of documents that contain the term at least once. *)
Definition df (docs : list document) (t : pystr) : Z :=
  Z.of_nat (length (filter (λ d, t ∈ _tokenize (content d)) docs)).

(** avgdl = (sum of all document lengths) / (document count). *)
Definition mean_len (docs : list document) : R :=
  (IZR (foldr Z.add 0%Z (map len docs)) / IZR (Z.of_nat (length docs)))%R.

(** The divisor of one summand of score(i). *)
Definition bm25_divisor (k1 b avgdl : R) (f l : Z) : R :=
  (IZR f + k1 * (1 - b + b * IZR l / avgdl))%R.

(** One summand of score(i), for a term whose IDF is [w]. *)
Definition bm25_term (k1 b avgdl w : R) (f l : Z) : R :=
  (w * IZR f * (k1 + 1) / bm25_divisor k1 b avgdl f l)%R.

(** score(i): the sum over the query terms present in the IDF table. *)
Definition bm25_score (k1 b : R) (docs : list document) (table : gmap pystr R)
    (query_terms : list pystr) (d : document) : R :=
  foldr Rplus 0%R
    (omap (λ t, (λ w, bm25_term k1 b (mean_len docs) w (freq t d) (len d)) <$> table !! t)
          query_terms).

(** The (score, document) pairs with a strictly positive score, in
    document order. *)
Definition candidates (k1 b : R) (docs : list document) (query : pystr)
  : list (R * document) :=
  filter (λ p, (0 < p.1)%R)
    (map (λ d, (bm25_score k1 b docs (idf (fit k1 b docs)) (_tokenize query) d, d)) docs).

(** No summand of the scores of the query terms [ts] divides by zero. *)
Definition scores_defined (k1 b : R) (docs : list document) (ts : list pystr) : Prop :=
  ∀ d t, d ∈ docs → t ∈ ts → is_Some (idf (fit k1 b docs) !! t) →
    bm25_divisor k1 b (mean_len docs) (freq t d) (len d) ≠ 0%R.

(** The step of the sum for document [d], with the check the division
    makes. *)
Definition checked_step (k1 b : R) (docs : list document) (d : document)
    (s : R) (t : pystr) : result R :=
  match idf (fit k1 b docs) !! t with
  | Some w =>
      if decide (bm25_divisor k1 b (mean_len docs) (freq t d) (len d) = 0%R)
      then Raise ZeroDivisionError
      else Ok (s + bm25_term k1 b (mean_len docs) w (freq t d) (len d))%R
  | None => Ok s
  end.

(** Descending by score. *)
Definition desc {A} (key : A → R) (x y : A) : Prop := (key y <= key x)%R.

(** [item.is_dir()] *)
Definition is_dir (e : entry) : bool :=
  match e with
  | Dir _ => true
  | NotDir => false
  end.

(** The documents [build_novel_index] reads for a collection: none when
    the directory is missing. *)
Definition chapters (fs : filesystem) (novel_name : pystr) : list document :=
  default [] (foldl read_step [] <$> novel_dir fs novel_name).

(** An index as [build_novel_index] makes it: fitted with the default
    parameters. *)
Definition fitted (e : SimpleBM25) : Prop := ∃ docs, e = fit 1.5 0.75 docs.

(** Every file of the disk was written by [save] from such an index. *)
Definition sidecars_fitted (d : disk) : Prop :=
  ∀ path j, d !! path = Some j → ∃ e, fitted e ∧ j = Some (to_json e).

(** A manager whose cache and sidecars all come from its own builds. *)
Definition consistent (fs : filesystem) (self : MemoryManager) : Prop :=
  sidecars_fitted (files fs) ∧ Forall (λ kv, fitted kv.2) (engines self).

(** The state in which [search_all] runs its queries: the cache after
    [_preload_indices], and only when that cache is empty the outcome of
    building every directory of the listing. *)
Definition after_discovery (fs : filesystem) (self : MemoryManager)
  : filesystem * MemoryManager :=
  let self := _preload_indices fs self in
  match engines self, listing fs with
  | [], Some items => foldl build_item (fs, self) items
  | _, _ => (fs, self)
  end.

(** * Properties *)

(** ** Tokenizer *)

Lemma keep_char_spec c :
  keep_char c = true ↔ unicode_word c = true ∨ (0x4e00 ≤ c ≤ 0x9fff)%N.
Proof.
  unfold keep_char.
  rewrite orb_true_iff, andb_true_iff, !N.leb_le. tauto.
Qed.

Lemma normalize_spec text :
  normalize text = filter (λ c, unicode_word c = true ∨ (0x4e00 ≤ c ≤ 0x9fff)%N) text.
Proof. apply list_filter_iff. intros c. apply keep_char_spec. Qed.

Lemma slice_bigram {A} (s : list A) i c1 c2 :
  s !! i = Some c1 → s !! (i + 1)%nat = Some c2 → slice s i (i + 2) = [c1; c2].
Proof.
  intros H1 H2. unfold slice.
  replace (i + 2 - i)%nat with 2%nat by lia.
  rewrite (drop_S _ _ _ H1). simpl.
  replace (S i) with (i + 1)%nat by lia.
  rewrite (drop_S _ _ _ H2). reflexivity.
Qed.

Lemma _tokenize_short text :
  (length (normalize text) < 2)%nat → _tokenize text = [normalize text].
Proof.
  intros H. unfold _tokenize.
  destruct (Nat.ltb_spec (length (normalize text)) 2); [done | lia].
Qed.

Lemma _tokenize_long text :
  (2 ≤ length (normalize text))%nat →
  _tokenize text =
    map (λ i, slice (normalize text) i (i + 2)) (seq 0 (length (normalize text) - 1)).
Proof.
  intros H. unfold _tokenize.
  destruct (Nat.ltb_spec (length (normalize text)) 2); [lia | done].
Qed.

Lemma _tokenize_length text :
  length (_tokenize text) = Nat.max 1 (length (normalize text) - 1).
Proof.
  destruct (Nat.lt_ge_cases (length (normalize text)) 2) as [H|H].
  - rewrite _tokenize_short by done. simpl. lia.
  - rewrite _tokenize_long by done. rewrite length_map, length_seq. lia.
Qed.

(** C6: the tokenizer keeps the word characters and the CJK block, in
    order; fewer than two kept characters give the one-element sequence
    holding them; otherwise a kept string of length L gives its L-1
    overlapping bigrams, left to right, repeats included. *)
Theorem _tokenize_bigrams text :
  let s := filter (λ c, unicode_word c = true ∨ (0x4e00 ≤ c ≤ 0x9fff)%N) text in
  ((length s < 2)%nat → _tokenize text = [s]) ∧
  ((2 ≤ length s)%nat →
     length (_tokenize text) = (length s - 1)%nat ∧
     ∀ i, (i < length s - 1)%nat →
       ∃ c1 c2, s !! i = Some c1 ∧ s !! (i + 1)%nat = Some c2 ∧
                _tokenize text !! i = Some [c1; c2]).
Proof.
  intros s. subst s. rewrite <- normalize_spec. split.
  - apply _tokenize_short.
  - intros H. split.
    + rewrite _tokenize_length. lia.
    + intros i Hi.
      destruct (lookup_lt_is_Some_2 (normalize text) i) as [c1 H1]; [lia |].
      destruct (lookup_lt_is_Some_2 (normalize text) (i + 1)) as [c2 H2]; [lia |].
      exists c1, c2. split_and!; [done | done |].
      rewrite _tokenize_long by done.
      rewrite list_lookup_fmap, lookup_seq_lt by lia. simpl.
      by rewrite (slice_bigram _ _ _ _ H1 H2).
Qed.

(** ** Counters *)

(** Occurrences of [t] in a token list. *)
Local Abbreviation occ t ts := (Z.of_nat (length (filter (λ x, x = t) ts))).

Lemma count_incr c a t :
  count (incr c a) t = count c t + (if decide (a = t) then 1 else 0).
Proof.
  unfold incr, count. rewrite lookup_insert.
  destruct (decide (a = t)) as [->|]; simpl; lia.
Qed.

Lemma is_Some_incr c a t : is_Some (incr c a !! t) ↔ a = t ∨ is_Some (c !! t).
Proof.
  unfold incr. rewrite lookup_insert.
  destruct (decide (a = t)); simpl; [| tauto].
  split; [tauto | intros _; eauto].
Qed.

Lemma count_foldl_incr ts c t : count (foldl incr c ts) t = count c t + occ t ts.
Proof.
  revert c. induction ts as [|a ts IH]; intros c; simpl; [lia |].
  rewrite IH, count_incr, filter_cons.
  destruct (decide (a = t)); simpl; lia.
Qed.

Lemma is_Some_foldl_incr ts c t :
  is_Some (foldl incr c ts !! t) ↔ t ∈ ts ∨ is_Some (c !! t).
Proof.
  revert c. induction ts as [|a ts IH]; intros c; simpl.
  - rewrite elem_of_nil. tauto.
  - rewrite IH, is_Some_incr, elem_of_cons. intuition congruence.
Qed.

Lemma count_Counter ts t : count (Counter ts) t = occ t ts.
Proof. unfold Counter. rewrite count_foldl_incr. unfold count. by rewrite lookup_empty. Qed.

Lemma is_Some_Counter ts t : is_Some (Counter ts !! t) ↔ t ∈ ts.
Proof.
  unfold Counter. rewrite is_Some_foldl_incr, lookup_empty.
  split; [intros [?|[? ?]]; done | tauto].
Qed.

Lemma elem_of_keys {V} (m : gmap pystr V) t : t ∈ keys m ↔ is_Some (m !! t).
Proof.
  unfold keys. rewrite list_elem_of_fmap. split.
  - intros [[k v] [-> H]]. apply elem_of_map_to_list in H. eauto.
  - intros [v H]. exists (t, v). split; [done |]. by apply elem_of_map_to_list.
Qed.

Lemma occ_NoDup (l : list pystr) t :
  NoDup l → occ t l = if decide (t ∈ l) then 1 else 0.
Proof.
  induction 1 as [|a l Hnotin Hnd IH].
  - rewrite decide_False; [done | apply not_elem_of_nil].
  - rewrite filter_cons.
    destruct (decide (a = t)) as [->|Hne].
    + rewrite length_cons, Nat2Z.inj_succ, IH.
      rewrite (decide_False (P := t ∈ l)) by done.
      rewrite decide_True by (apply elem_of_cons; auto). lia.
    + rewrite IH. destruct (decide (t ∈ l)) as [Hin|Hnin].
      * rewrite decide_True by (apply elem_of_cons; auto). done.
      * rewrite decide_False; [done |]. rewrite elem_of_cons. intuition congruence.
Qed.

Lemma occ_keys {V} (m : gmap pystr V) t :
  occ t (keys m) = if decide (is_Some (m !! t)) then 1 else 0.
Proof.
  rewrite occ_NoDup by apply NoDup_fst_map_to_list.
  destruct (decide (t ∈ keys m)) as [H|H]; rewrite elem_of_keys in H.
  - by rewrite decide_True.
  - by rewrite decide_False.
Qed.

(** The document-frequency counter built by the second loop of [fit]. *)
Lemma count_doc_freq_acc cs acc t :
  count (foldl (λ df term_counts, foldl incr df (keys term_counts)) acc cs) t =
  count acc t + Z.of_nat (length (filter (λ c : gmap pystr Z, is_Some (c !! t)) cs)).
Proof.
  revert acc. induction cs as [|c cs IH]; intros acc; simpl; [lia |].
  rewrite IH, count_foldl_incr, occ_keys, filter_cons.
  destruct (decide (is_Some (c !! t))); simpl; lia.
Qed.

Lemma is_Some_doc_freq_acc cs acc t :
  is_Some (foldl (λ df term_counts, foldl incr df (keys term_counts)) acc cs !! t) ↔
  is_Some (acc !! t) ∨ ∃ c : gmap pystr Z, c ∈ cs ∧ is_Some (c !! t).
Proof.
  revert acc. induction cs as [|c cs IH]; intros acc; simpl.
  - split; [tauto |]. intros [?|(c & H & _)]; [done | by apply elem_of_nil in H].
  - rewrite IH, is_Some_foldl_incr, elem_of_keys. split.
    + intros [[?|?]|(c' & ? & ?)]; [right; exists c | tauto | right; exists c'];
        rewrite elem_of_cons; tauto.
    + intros [?|(c' & Hin & ?)]; [tauto |].
      apply elem_of_cons in Hin as [->|?]; [tauto | right; eauto].
Qed.

(** ** What [fit] stores *)

Local Abbreviation counter_of := (λ d : document, Counter (_tokenize (content d))).

Lemma foldl_fit_step docs ls tot cs :
  foldl fit_step (ls, tot, cs) docs =
  (ls ++ map len docs, tot + foldr Z.add 0 (map len docs), cs ++ map counter_of docs).
Proof.
  revert ls tot cs. induction docs as [|d docs IH]; intros ls tot cs; simpl.
  - by rewrite !app_nil_r, Z.add_0_r.
  - rewrite IH, <- !app_assoc. simpl.
    change (Z.of_nat (length (_tokenize (content d)))) with (len d).
    by rewrite Z.add_assoc.
Qed.

Lemma fit_unfold k1 b docs :
  fit k1 b docs =
  {| k1 := k1; b := b;
     avgdl := if (0 <? Z.of_nat (length docs))%Z then mean_len docs else 0%R;
     doc_count := Z.of_nat (length docs);
     idf := idf_value (Z.of_nat (length docs)) <$> doc_freq (map counter_of docs);
     doc_lengths := map len docs;
     documents := docs;
     doc_term_counts := map counter_of docs |}.
Proof. unfold fit. rewrite foldl_fit_step. reflexivity. Qed.

Lemma length_filter_fmap {A B} (f : A → B) (P : B → Prop) `{!∀ x, Decision (P x)} l :
  length (filter P (map f l)) = length (filter (λ x, P (f x)) l).
Proof.
  induction l as [|a l IH]; [done |]. simpl. rewrite !filter_cons.
  destruct (decide (P (f a))); simpl; by rewrite IH.
Qed.


Lemma length_filter_pos {A} (P : A → Prop) `{!∀ x, Decision (P x)} l :
  (0 < length (filter P l))%nat ↔ ∃ x, x ∈ l ∧ P x.
Proof.
  split.
  - destruct (filter P l) as [|x l'] eqn:E; simpl; [lia |]. intros _.
    assert (x ∈ filter P l) as Hx by (rewrite E; apply elem_of_cons; auto).
    apply list_elem_of_filter in Hx. exists x. tauto.
  - intros (x & Hin & HP).
    assert (x ∈ filter P l) as Hx by (apply list_elem_of_filter; auto).
    destruct (filter P l); [by apply elem_of_nil in Hx | simpl; lia].
Qed.

Lemma df_bounds docs t : 0 ≤ df docs t ≤ Z.of_nat (length docs).
Proof. unfold df. split; [lia |]. apply inj_le, length_filter. Qed.

Lemma df_pos docs t : 0 < df docs t ↔ ∃ d, d ∈ docs ∧ t ∈ _tokenize (content d).
Proof.
  pose proof (length_filter_pos (λ d : document, t ∈ _tokenize (content d)) docs) as H.
  unfold df. rewrite <- H. lia.
Qed.

Lemma count_doc_freq docs t : count (doc_freq (map counter_of docs)) t = df docs t.
Proof.
  unfold doc_freq. rewrite count_doc_freq_acc. unfold count at 1.
  rewrite lookup_empty. cbn [default]. rewrite Z.add_0_l. unfold df.
  rewrite length_filter_fmap. do 2 f_equal.
  apply list_filter_iff. intros d. apply is_Some_Counter.
Qed.

Lemma doc_freq_lookup docs t :
  doc_freq (map counter_of docs) !! t =
  if decide (0 < df docs t) then Some (df docs t) else None.
Proof.
  pose proof (count_doc_freq docs t) as Hc. unfold count in Hc.
  destruct (doc_freq (map counter_of docs) !! t) as [v|] eqn:E; simpl in Hc.
  - subst v. rewrite decide_True; [done |].
    apply df_pos.
    assert (is_Some (doc_freq (map counter_of docs) !! t)) as H by eauto.
    unfold doc_freq in H. apply is_Some_doc_freq_acc in H as [[? H]|(c & Hin & Hc)].
    { by rewrite lookup_empty in H. }
    apply list_elem_of_fmap in Hin as (d & -> & Hd).
    exists d. split; [done |]. by apply is_Some_Counter.
  - rewrite decide_False; [done | lia].
Qed.

Lemma idf_lookup k1 b docs t :
  idf (fit k1 b docs) !! t =
  if decide (0 < df docs t)
  then Some (idf_value (Z.of_nat (length docs)) (df docs t)) else None.
Proof.
  rewrite fit_unfold. simpl. rewrite lookup_fmap, doc_freq_lookup.
  by destruct (decide (0 < df docs t)).
Qed.

(** The IDF of a document frequency between 0 and the document count is
    strictly positive. *)
Lemma idf_value_pos N f : 0 ≤ f ≤ N → (0 < idf_value N f)%R.
Proof.
  intros [H0 HN]. unfold idf_value.
  assert (0 <= IZR (N - f))%R as H1 by (apply IZR_le; lia).
  assert (0 <= IZR f)%R as H2 by (apply IZR_le; lia).
  assert (0 < (IZR (N - f) + 0.5) / (IZR f + 0.5))%R as H3
    by (apply Rdiv_lt_0_compat; lra).
  rewrite <- ln_1. apply ln_increasing; lra.
Qed.

(** C5: after [fit] on N documents the IDF table holds, for exactly the
    terms of the corpus, ln((N - df + 0.5) / (df + 0.5) + 1) with df the
    number of documents containing the term; df never exceeds N, and the
    value is never negative. *)
Theorem fit_idf_formula k1 b docs t :
  let N := Z.of_nat (length docs) in
  let n := df docs t in
  0 ≤ n ≤ N ∧
  idf (fit k1 b docs) !! t =
    (if decide (0 < n)
     then Some (ln ((IZR (N - n) + 0.5) / (IZR n + 0.5) + 1)) else None) ∧
  (0 <= ln ((IZR (N - n) + 0.5) / (IZR n + 0.5) + 1))%R.
Proof.
  intros N n. pose proof (df_bounds docs t) as Hb. split_and!; try apply Hb.
  - apply idf_lookup.
  - left. by apply idf_value_pos.
Qed.

(** ** Sorting *)

Lemma insert_desc_perm {A} (key : A → R) x l : insert_desc key x l ≡ₚ x :: l.
Proof.
  induction l as [|y l IH]; simpl; [done |].
  destruct (decide (key x < key y)%R); [| done].
  rewrite IH. apply Permutation_swap.
Qed.

Lemma sort_desc_perm {A} (key : A → R) l : sort_desc key l ≡ₚ l.
Proof.
  induction l as [|x l IH]; simpl; [done |].
  by rewrite insert_desc_perm, IH.
Qed.

Lemma sort_desc_length {A} (key : A → R) l : length (sort_desc key l) = length l.
Proof. apply Permutation_length, sort_desc_perm. Qed.

Lemma insert_desc_sorted {A} (key : A → R) x l :
  StronglySorted (desc key) l → StronglySorted (desc key) (insert_desc key x l).
Proof.
  induction 1 as [|y l Hl IH Hy]; simpl.
  - repeat constructor.
  - destruct (decide (key x < key y)%R) as [Hlt|Hge].
    + constructor; [done |].
      rewrite insert_desc_perm. constructor; [unfold desc; lra | done].
    + constructor; [by constructor |].
      constructor; [unfold desc; lra |].
      eapply Forall_impl; [exact Hy |]. unfold desc. intros z Hz. lra.
Qed.

Lemma sort_desc_sorted {A} (key : A → R) l : StronglySorted (desc key) (sort_desc key l).
Proof.
  induction l as [|x l IH]; simpl; [constructor |].
  by apply insert_desc_sorted.
Qed.

Lemma py_prefix_nonneg {A} (l : list A) k :
  0 ≤ k → py_prefix l k = take (Z.to_nat k) l.
Proof. intros H. unfold py_prefix. destruct (Z.leb_spec 0 k); [done | lia]. Qed.

Lemma py_prefix_neg {A} (l : list A) k :
  k < 0 → py_prefix l k = take (length l - Z.to_nat (- k)) l.
Proof. intros H. unfold py_prefix. destruct (Z.leb_spec 0 k); [lia | done]. Qed.

(** ** Lengths and the average length *)

Lemma len_ge_1 d : 1 ≤ len d.
Proof. unfold len. rewrite _tokenize_length. lia. Qed.

Lemma sum_len_ge docs : Z.of_nat (length docs) ≤ foldr Z.add 0 (map len docs).
Proof.
  induction docs as [|d docs IH]; simpl; [lia |].
  pose proof (len_ge_1 d). lia.
Qed.

Lemma mean_len_ge_1 docs : docs ≠ [] → (1 <= mean_len docs)%R.
Proof.
  intros Hne. unfold mean_len.
  assert (0 < length docs)%nat as Hn by (destruct docs; [done | simpl; lia]).
  assert (0 < IZR (Z.of_nat (length docs)))%R as H0 by (apply IZR_lt; lia).
  assert (IZR (Z.of_nat (length docs)) <= IZR (foldr Z.add 0%Z (map len docs)))%R as H1
    by (apply IZR_le, sum_len_ge).
  pose proof (Rinv_0_lt_compat _ H0) as H2.
  pose proof (Rinv_r (IZR (Z.of_nat (length docs))) ltac:(lra)) as H3.
  unfold Rdiv. nra.
Qed.

Lemma avgdl_fit k1 b docs :
  docs ≠ [] → avgdl (fit k1 b docs) = mean_len docs.
Proof.
  intros Hne. rewrite fit_unfold. simpl.
  destruct (Z.ltb_spec 0 (Z.of_nat (length docs))) as [|H]; [done |].
  destruct docs; [done | simpl in H; lia].
Qed.

Lemma fit_k1 x y docs : k1 (fit x y docs) = x.
Proof. by rewrite fit_unfold. Qed.

Lemma fit_b x y docs : b (fit x y docs) = y.
Proof. by rewrite fit_unfold. Qed.

Lemma fit_doc_count x y docs : doc_count (fit x y docs) = Z.of_nat (length docs).
Proof. by rewrite fit_unfold. Qed.

Lemma fit_doc_lengths x y docs : doc_lengths (fit x y docs) = map len docs.
Proof. by rewrite fit_unfold. Qed.

Lemma fit_documents x y docs : documents (fit x y docs) = docs.
Proof. by rewrite fit_unfold. Qed.

Lemma fit_doc_term_counts x y docs :
  doc_term_counts (fit x y docs) = map counter_of docs.
Proof. by rewrite fit_unfold. Qed.

(** ** The score of one document *)

Lemma bind_Ok {A B} (a : A) (k : A → result B) : (Ok a ≫= k) = k a.
Proof. reflexivity. Qed.



Lemma foldlM_app {A S} (f : S → A → result S) s l1 l2 :
  foldlM f s (l1 ++ l2) = s' ← foldlM f s l1; foldlM f s' l2.
Proof.
  revert s. induction l1 as [|a l1 IH]; intros s; simpl; [done |].
  destruct (f s a); simpl; [apply IH | done].
Qed.

Lemma foldlM_ext {A S} (f g : S → A → result S) s l :
  (∀ s a, f s a = g s a) → foldlM f s l = foldlM g s l.
Proof.
  intros H. revert s. induction l as [|a l IH]; intros s; simpl; [done |].
  rewrite H. destruct (g s a); simpl; [apply IH | done].
Qed.

Lemma freq_nonneg t d : 0 ≤ freq t d.
Proof. unfold freq. lia. Qed.

Lemma freq_pos t d : 0 < freq t d ↔ t ∈ _tokenize (content d).
Proof.
  pose proof (length_filter_pos (λ x, x = t) (_tokenize (content d))) as H.
  unfold freq. split.
  - intros Hp. destruct H as [H _]. destruct H as (x & Hx & ->); [lia | done].
  - intros Hin. destruct H as [_ H]. specialize (H (ex_intro _ t (conj Hin eq_refl))). lia.
Qed.

Lemma bm25_score_cons k1 b docs table t ts d :
  bm25_score k1 b docs table (t :: ts) d =
  match table !! t with
  | Some w => (bm25_term k1 b (mean_len docs) w (freq t d) (len d)
               + bm25_score k1 b docs table ts d)%R
  | None => bm25_score k1 b docs table ts d
  end.
Proof. unfold bm25_score. simpl. by destruct (table !! t). Qed.


Section Scoring.

Context (k1 b : R) (docs : list document).

Local Abbreviation scored ts :=
  (λ d : document, (bm25_score k1 b docs (idf (fit k1 b docs)) ts d, d)).

(** The loop body on an index built by [fit]: the division by avgdl
    never raises, the division by the divisor raises when it is zero. *)
Lemma term_step_fit d s t :
  d ∈ docs →
  term_step (fit k1 b docs) (len d) (counter_of d) s t = checked_step k1 b docs d s t.
Proof.
  intros Hd. unfold term_step, checked_step.
  destruct (idf (fit k1 b docs) !! t) as [w|]; [| done].
  assert (docs ≠ []) as Hne by (intros ->; by apply elem_of_nil in Hd).
  rewrite avgdl_fit by done.
  pose proof (mean_len_ge_1 docs Hne) as Havg.
  rewrite count_Counter. fold (freq t d). rewrite fit_k1, fit_b.
  unfold fdiv. rewrite (decide_False (P := mean_len docs = 0%R)) by lra.
  cbn [mbind result_bind]. unfold bm25_term, bm25_divisor.
  by destruct (decide _).
Qed.

Lemma doc_score_fit_checked ts i d :
  docs !! i = Some d →
  doc_score (fit k1 b docs) ts i = foldlM (checked_step k1 b docs d) 0%R ts.
Proof.
  intros Hi. unfold doc_score, getitem.
  rewrite fit_doc_lengths, fit_doc_term_counts, !list_lookup_fmap, Hi. simpl.
  apply foldlM_ext. intros s t. apply term_step_fit. by eapply list_elem_of_lookup_2.
Qed.

Lemma foldlM_checked_step d s ts :
  (∀ t, t ∈ ts → is_Some (idf (fit k1 b docs) !! t) →
     bm25_divisor k1 b (mean_len docs) (freq t d) (len d) ≠ 0%R) →
  foldlM (checked_step k1 b docs d) s ts =
  Ok (s + bm25_score k1 b docs (idf (fit k1 b docs)) ts d)%R.
Proof.
  revert s. induction ts as [|t ts IH]; intros s Hdef.
  - simpl. unfold bm25_score. simpl. by rewrite Rplus_0_r.
  - assert (∀ u, u ∈ ts → is_Some (idf (fit k1 b docs) !! u) →
              bm25_divisor k1 b (mean_len docs) (freq u d) (len d) ≠ 0%R) as Hts
      by (intros u Hu; apply Hdef, elem_of_cons; auto).
    cbn [foldlM]. rewrite bm25_score_cons.
    destruct (idf (fit k1 b docs) !! t) as [w|] eqn:E.
    + assert (checked_step k1 b docs d s t =
              Ok (s + bm25_term k1 b (mean_len docs) w (freq t d) (len d))%R) as ->.
      { unfold checked_step. rewrite E, decide_False; [done |].
        apply Hdef; [apply elem_of_cons; auto | by rewrite E]. }
      cbn [mbind result_bind]. rewrite IH by done. f_equal. apply Rplus_assoc.
    + assert (checked_step k1 b docs d s t = Ok s) as ->
        by (unfold checked_step; by rewrite E).
      cbn [mbind result_bind]. by apply IH.
Qed.

Lemma doc_score_fit ts i d :
  docs !! i = Some d →
  (∀ t, t ∈ ts → is_Some (idf (fit k1 b docs) !! t) →
     bm25_divisor k1 b (mean_len docs) (freq t d) (len d) ≠ 0%R) →
  doc_score (fit k1 b docs) ts i =
  Ok (bm25_score k1 b docs (idf (fit k1 b docs)) ts d).
Proof.
  intros Hi Hdef.
  rewrite (doc_score_fit_checked _ _ _ Hi), foldlM_checked_step by done.
  by rewrite Rplus_0_l.
Qed.

Lemma search_step_fit ts acc i d :
  docs !! i = Some d →
  (∀ t, t ∈ ts → is_Some (idf (fit k1 b docs) !! t) →
     bm25_divisor k1 b (mean_len docs) (freq t d) (len d) ≠ 0%R) →
  search_step (fit k1 b docs) ts acc i =
  Ok (acc ++ filter (λ p, (0 < p.1)%R) [scored ts d]).
Proof.
  intros Hi Hdef. unfold search_step. rewrite (doc_score_fit _ _ _ Hi Hdef). simpl.
  rewrite filter_cons, filter_nil. simpl.
  destruct (decide (0 < bm25_score k1 b docs (idf (fit k1 b docs)) ts d)%R).
  - unfold getitem. by rewrite fit_documents, Hi.
  - by rewrite app_nil_r.
Qed.

Lemma search_loop_fit ts n :
  scores_defined k1 b docs ts →
  (n ≤ length docs)%nat →
  foldlM (search_step (fit k1 b docs) ts) [] (seq 0 n) =
  Ok (filter (λ p, (0 < p.1)%R) (map (scored ts) (take n docs))).
Proof.
  intros Hdef. induction n as [|n IH]; intros Hn; [done |].
  rewrite seq_S, foldlM_app, IH by lia. simpl.
  destruct (lookup_lt_is_Some_2 docs n) as [d Hd]; [lia |].
  rewrite (search_step_fit _ _ _ _ Hd)
    by (intros t; apply Hdef; by eapply list_elem_of_lookup_2).
  simpl. by rewrite (take_S_r _ _ _ Hd), map_app, filter_app.
Qed.

(** What [search] returns on an index built by [fit]. *)
Lemma search_fit query top_k :
  scores_defined k1 b docs (_tokenize query) →
  search (fit k1 b docs) query top_k =
  Ok (py_prefix (sort_desc fst (candidates k1 b docs query)) top_k).
Proof.
  intros Hdef. unfold search, range. rewrite fit_doc_count, Nat2Z.id.
  rewrite search_loop_fit by done. simpl.
  by rewrite firstn_all.
Qed.

Lemma idf_fit_pos t w : idf (fit k1 b docs) !! t = Some w → (0 < w)%R.
Proof.
  rewrite idf_lookup. destruct (decide (0 < df docs t)); [| done].
  intros [= <-]. apply idf_value_pos, df_bounds.
Qed.


(** *** Parameters in the usual range *)

Hypothesis k1_pos : (0 < k1)%R.
Hypothesis b_range : (0 <= b <= 1)%R.

Lemma length_norm_pos avg l :
  (1 <= avg)%R → 1 ≤ l → (0 < 1 - b + b * IZR l / avg)%R.
Proof using b_range.
  intros Havg Hl.
  assert (1 <= IZR l)%R as HL by (apply IZR_le; lia).
  assert (0 < / avg)%R as Hinv by (apply Rinv_0_lt_compat; lra).
  unfold Rdiv. destruct (Rlt_le_dec b 1) as [Hlt|Hge].
  - assert (0 <= b * IZR l * / avg)%R; [| lra].
    apply Rmult_le_pos; [apply Rmult_le_pos |]; lra.
  - assert (b = 1)%R as -> by lra.
    assert (0 < 1 * IZR l * / avg)%R; [| lra].
    apply Rmult_lt_0_compat; lra.
Qed.

Lemma divisor_pos avg l f :
  (1 <= avg)%R → 1 ≤ l → 0 ≤ f → (0 < bm25_divisor k1 b avg f l)%R.
Proof using k1_pos b_range.
  intros Havg Hl Hf. unfold bm25_divisor.
  assert (0 <= IZR f)%R by (apply IZR_le; lia).
  pose proof (length_norm_pos avg l Havg Hl).
  assert (0 < k1 * (1 - b + b * IZR l / avg))%R by (apply Rmult_lt_0_compat; lra).
  lra.
Qed.

Lemma usual_scores_defined ts : scores_defined k1 b docs ts.
Proof using k1_pos b_range.
  intros d t Hd _ _.
  assert (docs ≠ []) as Hne by (intros ->; by apply elem_of_nil in Hd).
  pose proof (divisor_pos _ (len d) (freq t d) (mean_len_ge_1 docs Hne)
                (len_ge_1 d) (freq_nonneg t d)).
  lra.
Qed.

Lemma bm25_term_nonneg w f l :
  docs ≠ [] → 1 ≤ l → (0 < w)%R → 0 ≤ f →
  (0 <= bm25_term k1 b (mean_len docs) w f l)%R ∧
  (0 < f → (0 < bm25_term k1 b (mean_len docs) w f l)%R).
Proof using k1_pos b_range.
  intros Hne Hl Hw Hf. unfold bm25_term.
  pose proof (divisor_pos _ l f (mean_len_ge_1 docs Hne) Hl Hf) as Hden.
  assert (0 <= IZR f)%R as Hf' by (apply IZR_le; lia).
  split.
  - apply Rle_mult_inv_pos; [| done].
    apply Rmult_le_pos; [apply Rmult_le_pos |]; lra.
  - intros Hpos. assert (1 <= IZR f)%R by (apply IZR_le; lia).
    apply Rdiv_lt_0_compat; [| done].
    apply Rmult_lt_0_compat; [apply Rmult_lt_0_compat |]; lra.
Qed.

Lemma bm25_score_nonneg ts d :
  d ∈ docs → (0 <= bm25_score k1 b docs (idf (fit k1 b docs)) ts d)%R.
Proof using k1_pos b_range.
  intros Hd.
  assert (docs ≠ []) as Hne by (intros ->; by apply elem_of_nil in Hd).
  induction ts as [|t ts IH]; [unfold bm25_score; simpl; lra |].
  rewrite bm25_score_cons.
  destruct (idf (fit k1 b docs) !! t) as [w|] eqn:E; [| done].
  destruct (bm25_term_nonneg w (freq t d) (len d)) as [H _];
    [done | apply len_ge_1 | by eapply idf_fit_pos | apply freq_nonneg |].
  lra.
Qed.

(** A document that holds a query term has a positive score. *)
Lemma bm25_score_pos ts d t :
  d ∈ docs → t ∈ ts → t ∈ _tokenize (content d) →
  (0 < bm25_score k1 b docs (idf (fit k1 b docs)) ts d)%R.
Proof using k1_pos b_range.
  intros Hd Ht Htd.
  assert (docs ≠ []) as Hne by (intros ->; by apply elem_of_nil in Hd).
  induction ts as [|u ts IH]; [by apply elem_of_nil in Ht |].
  pose proof (bm25_score_nonneg ts d Hd) as Hrest.
  rewrite bm25_score_cons.
  destruct (idf (fit k1 b docs) !! u) as [w|] eqn:E.
  - destruct (bm25_term_nonneg w (freq u d) (len d)) as [H0 H1];
      [done | apply len_ge_1 | by eapply idf_fit_pos | apply freq_nonneg |].
    apply elem_of_cons in Ht as [->|Ht].
    + apply freq_pos in Htd. specialize (H1 Htd). lra.
    + specialize (IH Ht). lra.
  - apply elem_of_cons in Ht as [->|Ht]; [| by apply IH].
    rewrite idf_lookup in E. rewrite decide_True in E; [done |].
    apply df_pos. eauto.
Qed.

Lemma Rdiv_le_cross x y x' y' :
  (0 < y)%R → (0 < y')%R → (x * y' <= x' * y)%R → (x / y <= x' / y')%R.
Proof.
  intros Hy Hy' H.
  replace (x / y)%R with (x * y' * / (y * y'))%R by (field; lra).
  replace (x' / y')%R with (x' * y * / (y * y'))%R by (field; lra).
  apply Rmult_le_compat_r; [| done].
  left. apply Rinv_0_lt_compat. by apply Rmult_lt_0_compat.
Qed.



End Scoring.

(** ** The claims on [search] *)


(** C8, amended: when [search] returns (no divisor of a summand is
    zero), for top_k >= 0 it returns the first min(top_k, n) of the n
    positive-scoring candidates, hence at most top_k results and all
    candidates when there are no more than top_k of them, and nothing for
    top_k = 0; a negative top_k is a Python slice bound and drops the last
    -top_k ranked candidates instead. *)
Theorem search_top_k k1 b docs query top_k :
  scores_defined k1 b docs (_tokenize query) →
  ∃ results,
    search (fit k1 b docs) query top_k = Ok results ∧
    let n := length (candidates k1 b docs query) in
    (0 ≤ top_k →
       length results = Nat.min (Z.to_nat top_k) n ∧
       ((n ≤ Z.to_nat top_k)%nat → results ≡ₚ candidates k1 b docs query)) ∧
    (top_k = 0 → results = []) ∧
    (top_k < 0 → length results = (n - Z.to_nat (- top_k))%nat).
Proof.
  intros Hdef.
  exists (py_prefix (sort_desc fst (candidates k1 b docs query)) top_k).
  split; [by apply search_fit |]. intros n.
  pose proof (sort_desc_length fst (candidates k1 b docs query)) as Hlen.
  split_and!.
  - intros Htop. rewrite py_prefix_nonneg by done. split.
    + rewrite length_take, Hlen. done.
    + intros Hn. rewrite take_ge by (rewrite Hlen; exact Hn). apply sort_desc_perm.
  - intros ->. done.
  - intros Hneg. rewrite py_prefix_neg by done.
    rewrite length_take, Hlen. subst n. lia.
Qed.


(** C10: the tokenizer returns at least one token for every string, the
    empty string and strings without a kept character included (one token,
    the empty string); so after [fit] on a non-empty document list every
    document length is at least 1 and avgdl is at least 1, and in every
    index built by [fit] the division by avgdl in the score of a document
    does not raise. *)
Theorem tokens_nonempty_avgdl_positive k1 b docs text :
  (1 ≤ length (_tokenize text))%nat ∧
  _tokenize [] = [[]] ∧
  (Forall (λ c, keep_char c = false) text → _tokenize text = [[]]) ∧
  (docs ≠ [] →
     Forall (λ l, 1 ≤ l) (doc_lengths (fit k1 b docs)) ∧
     (1 <= avgdl (fit k1 b docs))%R) ∧
  (∀ i l, doc_lengths (fit k1 b docs) !! i = Some l →
     fdiv (b * IZR l) (avgdl (fit k1 b docs)) =
     Ok (b * IZR l / avgdl (fit k1 b docs))%R).
Proof.
  split_and!.
  - rewrite _tokenize_length. lia.
  - reflexivity.
  - intros Hall. assert (normalize text = []) as Hn.
    { unfold normalize. induction Hall as [|c l Hc _ IH]; [done |].
      rewrite filter_cons, decide_False by congruence. exact IH. }
    rewrite _tokenize_short by (rewrite Hn; simpl; lia). by rewrite Hn.
  - intros Hne. split.
    + rewrite fit_doc_lengths. apply Forall_forall. intros l Hl.
      apply list_elem_of_fmap in Hl as (d & -> & _). apply len_ge_1.
    + rewrite avgdl_fit by done. by apply mean_len_ge_1.
  - intros i l Hi.
    assert (docs ≠ []) as Hne.
    { intros ->. rewrite fit_doc_lengths in Hi. simpl in Hi. by rewrite lookup_nil in Hi. }
    pose proof (mean_len_ge_1 docs Hne) as Havg.
    rewrite avgdl_fit by done. unfold fdiv. by rewrite decide_False by lra.
Qed.

(** ** Persistence *)

Lemma py_dict_items {V} (m : gmap pystr V) : py_dict (dict_items m) = m.
Proof.
  unfold py_dict, dict_items.
  rewrite <- (list_to_map_to_list m) at 2.
  symmetry. apply list_to_map_proper; [apply NoDup_fst_map_to_list |].
  symmetry. apply reverse_Permutation.
Qed.

Lemma getkey_py_dict {V} (items : list (pystr * V)) key v :
  NoDup items.*1 → (key, v) ∈ items → getkey key (py_dict items) = Ok v.
Proof.
  intros Hnd Hin. unfold getkey, py_dict.
  rewrite (elem_of_list_to_map_1 _ key v); [done | |].
  - by rewrite fmap_reverse, reverse_Permutation.
  - by apply elem_of_reverse.
Qed.

Lemma for_each_map {A B} (f : B → result A) (g : A → B) l :
  (∀ x, f (g x) = Ok x) → for_each f (map g l) = Ok l.
Proof.
  intros H. induction l as [|a l IH]; [done |]. simpl.
  by rewrite H, IH.
Qed.

Lemma as_dict_of_obj_of {V} (f : json → result V) (g : V → json) m :
  (∀ v, f (g v) = Ok v) → as_dict_of f (obj_of g m) = Ok m.
Proof.
  intros H. unfold as_dict_of, obj_of.
  rewrite (for_each_map (λ kv, v ← f kv.2; Ok (kv.1, v)) (λ kv, (kv.1, g kv.2))).
  - simpl. by rewrite py_dict_items.
  - intros [k v]. simpl. by rewrite H.
Qed.

Lemma as_list_of_map {V} (f : json → result V) (g : V → json) l :
  (∀ v, f (g v) = Ok v) → as_list_of f (JArr (map g l)) = Ok l.
Proof. intros H. unfold as_list_of. simpl. by apply for_each_map. Qed.

(** Discharges the side conditions of [getkey_py_dict] on a literal dict. *)
Ltac literal_key :=
  solve [ refine (bool_decide_unpack _ _); vm_compute; exact I
        | repeat first [ apply list_elem_of_here | apply list_elem_of_further ] ].

(** Runs the decoding of a value that is already in constructor form. *)
Ltac run_load :=
  cbn [mbind result_bind mret result_ret as_float as_int as_str as_dict fst snd].

Lemma doc_of_json_to_json d : doc_of_json (doc_to_json d) = Ok d.
Proof.
  unfold doc_of_json, doc_to_json. run_load.
  rewrite (getkey_py_dict _ (py "content") (JStr (content d))) by literal_key. run_load.
  rewrite (getkey_py_dict _ (py "meta")
             (JObj [ (py "path", JStr (path (doc_meta d)));
                     (py "filename", JStr (filename (doc_meta d))) ])) by literal_key.
  run_load.
  rewrite (getkey_py_dict _ (py "path") (JStr (path (doc_meta d)))) by literal_key. run_load.
  rewrite (getkey_py_dict _ (py "filename") (JStr (filename (doc_meta d)))) by literal_key. run_load.
  by destruct d as [c [p f]].
Qed.

Lemma of_json_to_json self : of_json (to_json self) = Ok self.
Proof.
  unfold of_json, to_json. run_load.
  rewrite (getkey_py_dict _ (py "k1") (JFloat (k1 self))) by literal_key. run_load.
  rewrite (getkey_py_dict _ (py "b") (JFloat (b self))) by literal_key. run_load.
  rewrite (getkey_py_dict _ (py "avgdl") (JFloat (avgdl self))) by literal_key. run_load.
  rewrite (getkey_py_dict _ (py "doc_count") (JInt (doc_count self))) by literal_key. run_load.
  rewrite (getkey_py_dict _ (py "idf") (obj_of JFloat (idf self))) by literal_key. run_load.
  rewrite as_dict_of_obj_of by done. run_load.
  rewrite (getkey_py_dict _ (py "doc_lengths") (JArr (map JInt (doc_lengths self)))) by literal_key. run_load.
  rewrite as_list_of_map by done. run_load.
  rewrite (getkey_py_dict _ (py "documents")
             (JArr (map doc_to_json (documents self)))) by literal_key.
  run_load.
  rewrite as_list_of_map by apply doc_of_json_to_json. run_load.
  rewrite (getkey_py_dict _ (py "doc_term_counts")
             (JArr (map (obj_of JInt) (doc_term_counts self))))
    by literal_key.
  run_load.
  rewrite as_list_of_map by (intros c; by apply as_dict_of_obj_of). run_load.
  by destruct self.
Qed.

Lemma load_save self path d : load path (save self path d) = Ok self.
Proof.
  unfold load, save. rewrite lookup_insert_eq. apply of_json_to_json.
Qed.

(** C2: [save] followed by [load] of the same path gives back an index
    with the state of the saved one, so every later [search] on the
    loaded index returns what it returns on the original: the same
    documents in the same order with the same scores (equal, hence within
    any tolerance). *)
Theorem save_load_search (X : SimpleBM25) (p : pystr) (d : disk) (Q : pystr) (k : Z) :
  ∃ Y, load p (save X p d) = Ok Y ∧ Y = X ∧ search Y Q k = search X Q k.
Proof. exists X. split_and!; [apply load_save | done | done]. Qed.

(** ** The cache dict *)

Lemma dict_lookup_cons {V} key k (v : V) d :
  dict_lookup key ((k, v) :: d) = if decide (k = key) then Some v else dict_lookup key d.
Proof.
  unfold dict_lookup. simpl.
  destruct (decide (k = key)) as [->|Hne].
  - by rewrite bool_decide_eq_true_2.
  - by rewrite bool_decide_eq_false_2.
Qed.

Lemma dict_lookup_set_eq {V} key (v : V) d : dict_lookup key (dict_set key v d) = Some v.
Proof.
  induction d as [|[k x] d IH]; simpl.
  - rewrite dict_lookup_cons. by rewrite decide_True.
  - destruct (decide (k = key)) as [->|Hne]; rewrite dict_lookup_cons.
    + by rewrite decide_True.
    + by rewrite decide_False.
Qed.

Lemma dict_lookup_set_ne {V} key other (v : V) d :
  other ≠ key → dict_lookup other (dict_set key v d) = dict_lookup other d.
Proof.
  intros Hne. induction d as [|[k x] d IH]; simpl.
  - rewrite dict_lookup_cons. by rewrite decide_False.
  - destruct (decide (k = key)) as [->|Hk]; rewrite !dict_lookup_cons.
    + by rewrite !decide_False.
    + by rewrite IH.
Qed.

Lemma dict_lookup_is_Some {V} key (d : list (pystr * V)) :
  key ∈ d.*1 → is_Some (dict_lookup key d).
Proof.
  induction d as [|[k x] d IH]; simpl; intros Hin.
  - by apply elem_of_nil in Hin.
  - rewrite dict_lookup_cons. destruct (decide (k = key)); [eauto |].
    apply elem_of_cons in Hin as [?|?]; [congruence | by apply IH].
Qed.

(** ** build_novel_index *)

(** The document a walked file contributes, if any. *)
Local Abbreviation doc_of_file :=
  (λ f : txtfile,
     if endswith (file f) (py ".txt")
     then (λ c, {| content := c; doc_meta := {| path := relpath f; filename := file f |} |})
            <$> read f
     else None).

Lemma foldl_read_step walk acc :
  foldl read_step acc walk = acc ++ omap doc_of_file walk.
Proof.
  revert acc. induction walk as [|f walk IH]; intros acc; simpl.
  - by rewrite app_nil_r.
  - rewrite IH. unfold read_step.
    destruct (endswith (file f) (py ".txt")); [| done].
    destruct (read f); simpl; [| done].
    by rewrite <- app_assoc.
Qed.

Lemma no_txt_no_documents walk :
  Forall (λ f, endswith (file f) (py ".txt") = false) walk → foldl read_step [] walk = [].
Proof.
  rewrite foldl_read_step. simpl.
  induction 1 as [|f walk Hf _ IH]; simpl; [done |].
  by rewrite Hf.
Qed.

(** C7: for a collection name that is a single path component,
    [build_novel_index] fails with the reason "Novel directory not
    found" when the collection directory is absent and with "No documents
    found" when it holds no file named *.txt, or none that can be read;
    a failure leaves the file system and the cache as they were.  For a
    directory from which documents are read, what it returns is the
    success with their count, with an index fitted on them, written to
    the sidecar path (from where [load] gives it back) and made the cache
    entry of that name, whatever the entry was before and other entries
    untouched; it reports success in no other case. *)
Theorem build_novel_index_outcomes fs self novel_name :
  plain_name novel_name = true →
  let out := build_novel_index fs self novel_name in
  (novel_dir fs novel_name = None →
     out = ((false, "Novel directory not found"%string), fs, self)) ∧
  (∀ walk, novel_dir fs novel_name = Some walk →
     Forall (λ f, endswith (file f) (py ".txt") = false) walk ∨
     foldl read_step [] walk = [] →
     out = ((false, "No documents found"%string), fs, self)) ∧
  (∀ msg fs' self', out = ((false, msg), fs', self') → fs' = fs ∧ self' = self) ∧
  (∀ walk, novel_dir fs novel_name = Some walk →
     foldl read_step [] walk ≠ [] →
     ∀ outcome fs' self', out = (outcome, fs', self') →
       outcome = (true, ("Indexed " +:+ pretty (length (foldl read_step [] walk))
                           +:+ " chapters.")%string) ∧
       fs' = {| listing := listing fs;
                files := save (fit 1.5 0.75 (foldl read_step [] walk))
                              (_get_index_path self novel_name) (files fs) |} ∧
       self' = set_engine self novel_name (fit 1.5 0.75 (foldl read_step [] walk))) ∧
  (∀ msg fs' self', out = ((true, msg), fs', self') →
     ∃ walk engine,
       novel_dir fs novel_name = Some walk ∧
       foldl read_step [] walk ≠ [] ∧
       engine = fit 1.5 0.75 (foldl read_step [] walk) ∧
       listing fs' = listing fs ∧
       files fs' = <[_get_index_path self novel_name := Some (to_json engine)]> (files fs) ∧
       load (_get_index_path self novel_name) (files fs') = Ok engine ∧
       novels_root self' = novels_root self ∧
       dict_lookup novel_name (engines self') = Some engine ∧
       ∀ other, other ≠ novel_name →
         dict_lookup other (engines self') = dict_lookup other (engines self)).
Proof.
  intros _ out. subst out. unfold build_novel_index. split_and!.
  - by intros ->.
  - intros walk -> [Hall| ->]; [by rewrite no_txt_no_documents | done].
  - intros msg fs' self'. destruct (novel_dir fs novel_name) as [walk|].
    + destruct (foldl read_step [] walk); intros [= <- <-]; done.
    + by intros [= <- <-].
  - intros walk -> Hdocs outcome fs' self'.
    destruct (foldl read_step [] walk); [done |]. by intros [= <- <- <-].
  - intros msg fs' self'. destruct (novel_dir fs novel_name) as [walk|]; [| done].
    destruct (foldl read_step [] walk) as [|d ds] eqn:E; [done |].
    intros [= _ <- <-]. exists walk, (fit 1.5 0.75 (d :: ds)). simpl.
    split_and!; try done; try (by rewrite E).
    + apply load_save.
    + apply dict_lookup_set_eq.
    + intros other Hne. by apply dict_lookup_set_ne.
Qed.

(** ** query and search_all *)

Lemma query_hit fs self novel_name query_text top_k :
  is_Some (dict_lookup novel_name (engines self)) →
  query fs self novel_name query_text top_k =
  (query_cached self novel_name query_text top_k, fs, self).
Proof. intros [e He]. unfold query. by rewrite He. Qed.

Lemma query_each_cached fs self names query_text top_k acc :
  (∀ n, n ∈ names → is_Some (dict_lookup n (engines self))) →
  query_each fs self names query_text top_k acc =
  (rs ← for_each (λ n, query_cached self n query_text top_k) names;
   Ok (acc ++ concat rs), fs, self).
Proof.
  revert acc. induction names as [|n names IH]; intros acc Hin; simpl.
  - by rewrite app_nil_r.
  - rewrite query_hit by (apply Hin, elem_of_cons; auto).
    destruct (query_cached self n query_text top_k) as [results|e]; simpl; [| done].
    rewrite IH by (intros m Hm; apply Hin, elem_of_cons; auto).
    destruct (for_each _ names); simpl; [| done].
    by rewrite app_assoc.
Qed.

Lemma search_all_unfold fs self query_text top_k :
  search_all fs self query_text top_k =
  (rs ← for_each (λ n, query_cached (after_discovery fs self).2 n query_text top_k)
         (engines (after_discovery fs self).2).*1;
   Ok (py_prefix (sort_desc score (concat rs)) top_k),
   (after_discovery fs self).1, (after_discovery fs self).2).
Proof.
  unfold search_all. fold (after_discovery fs self).
  destruct (after_discovery fs self) as [fs' self']. simpl.
  rewrite query_each_cached by (intros n; apply dict_lookup_is_Some).
  by destruct (for_each _ _).
Qed.

(** C3, amended: [search_all] first runs [_preload_indices]; it builds
    the directories of the root only when the cache is still empty after
    that, so a directory without a cached index is left unbuilt whenever
    any other index is cached.  It then queries every cached collection
    with the same top_k, concatenates the results, sorts them by
    descending score and cuts the list at top_k (a prefix for
    top_k >= 0). *)
Theorem search_all_merges fs self query_text top_k :
  let st := after_discovery fs self in
  (engines (_preload_indices fs self) ≠ [] → st = (fs, _preload_indices fs self)) ∧
  (engines (_preload_indices fs self) = [] →
     st = match listing fs with
          | Some items => foldl build_item (fs, _preload_indices fs self) items
          | None => (fs, _preload_indices fs self)
          end) ∧
  search_all fs self query_text top_k =
    (rs ← for_each (λ n, query_cached st.2 n query_text top_k) (engines st.2).*1;
     Ok (py_prefix (sort_desc score (concat rs)) top_k), st.1, st.2) ∧
  (∀ l : list hit,
     sort_desc score l ≡ₚ l ∧ StronglySorted (desc score) (sort_desc score l) ∧
     (0 ≤ top_k → py_prefix l top_k = take (Z.to_nat top_k) l)).
Proof.
  intros st. subst st. split_and!.
  - unfold after_discovery. by destruct (engines (_preload_indices fs self)).
  - unfold after_discovery. intros ->. by destruct (listing fs).
  - apply search_all_unfold.
  - intros l. split_and!;
      [apply sort_desc_perm | apply sort_desc_sorted | apply py_prefix_nonneg].
Qed.

(** * Further properties of the engine *)

(** ** Tokens *)

Lemma _tokenize_lookup text i :
  (2 ≤ length (normalize text))%nat → (i < length (normalize text) - 1)%nat →
  ∃ c1 c2, normalize text !! i = Some c1 ∧ normalize text !! (i + 1)%nat = Some c2 ∧
           _tokenize text !! i = Some [c1; c2].
Proof.
  intros H Hi.
  destruct (lookup_lt_is_Some_2 (normalize text) i) as [c1 H1]; [lia |].
  destruct (lookup_lt_is_Some_2 (normalize text) (i + 1)) as [c2 H2]; [lia |].
  exists c1, c2. split_and!; [done | done |].
  rewrite _tokenize_long by done.
  rewrite list_lookup_fmap, lookup_seq_lt by lia. simpl.
  by rewrite (slice_bigram _ _ _ _ H1 H2).
Qed.

(** X1: two texts have the same tokens exactly when they keep the same
    characters: nothing but the stripped characters is lost. *)
Theorem _tokenize_eq_iff text1 text2 :
  _tokenize text1 = _tokenize text2 ↔ normalize text1 = normalize text2.
Proof.
  split; [| intros H; unfold _tokenize; by rewrite H].
  intros Heq.
  pose proof (_tokenize_length text1) as HL1.
  pose proof (_tokenize_length text2) as HL2. rewrite Heq in HL1.
  destruct (Nat.lt_ge_cases (length (normalize text1)) 2) as [H1|H1];
    destruct (Nat.lt_ge_cases (length (normalize text2)) 2) as [H2|H2].
  - rewrite !_tokenize_short in Heq by done. congruence.
  - exfalso. destruct (_tokenize_lookup text2 0) as (c1 & c2 & _ & _ & Ht); [lia.. |].
    rewrite <- Heq, _tokenize_short in Ht by done.
    injection Ht as Ht. rewrite Ht in H1. simpl in H1. lia.
  - exfalso. destruct (_tokenize_lookup text1 0) as (c1 & c2 & _ & _ & Ht); [lia.. |].
    rewrite Heq, _tokenize_short in Ht by done.
    injection Ht as Ht. rewrite Ht in H2. simpl in H2. lia.
  - assert (length (normalize text1) = length (normalize text2)) as Hlen by lia.
    apply list_eq. intros j.
    destruct (Nat.lt_ge_cases j (length (normalize text1) - 1)) as [Hj|Hj].
    + destruct (_tokenize_lookup text1 j) as (a1 & a2 & Ha & _ & Hta); [lia.. |].
      destruct (_tokenize_lookup text2 j) as (b1 & b2 & Hb & _ & Htb); [lia.. |].
      rewrite Heq in Hta. congruence.
    + destruct (Nat.eq_dec j (length (normalize text1) - 1)%nat) as [->|Hne].
      * destruct (_tokenize_lookup text1 (length (normalize text1) - 2)%nat)
          as (a1 & a2 & _ & Ha & Hta); [lia.. |].
        destruct (_tokenize_lookup text2 (length (normalize text1) - 2)%nat)
          as (b1 & b2 & _ & Hb & Htb); [lia.. |].
        rewrite Heq in Hta.
        replace (length (normalize text1) - 2 + 1)%nat
          with (length (normalize text1) - 1)%nat in * by lia.
        congruence.
      * rewrite !lookup_ge_None_2 by lia. done.
Qed.

(** X2: a token holds only characters the tokenizer keeps: no
    punctuation or white space reaches the index. *)
Theorem token_chars_kept text tok c :
  tok ∈ _tokenize text → c ∈ tok → keep_char c = true.
Proof.
  intros Htok Hc.
  assert (c ∈ normalize text) as Hn.
  { destruct (Nat.lt_ge_cases (length (normalize text)) 2) as [H|H].
    - rewrite _tokenize_short in Htok by done.
      apply list_elem_of_singleton in Htok as ->. done.
    - apply list_elem_of_lookup in Htok as [i Hi].
      assert (i < length (normalize text) - 1)%nat as Hlt.
      { apply lookup_lt_Some in Hi. rewrite _tokenize_length in Hi. lia. }
      destruct (_tokenize_lookup text i H Hlt) as (c1 & c2 & H1 & H2 & Ht).
      rewrite Ht in Hi. injection Hi as <-.
      apply elem_of_cons in Hc as [->|Hc]; [by eapply list_elem_of_lookup_2 |].
      apply list_elem_of_singleton in Hc as ->. by eapply list_elem_of_lookup_2. }
  unfold normalize in Hn. by apply list_elem_of_filter in Hn as [? _].
Qed.

(** ** The empty corpus *)

(** X3: [fit] on no documents takes the guarded branch (avgdl = 0, an
    empty IDF table), and every [search] on that index returns the empty
    list: no division is reached, whatever k1, b and top_k are. *)
Theorem fit_empty_corpus k1 b query top_k :
  avgdl (fit k1 b []) = 0%R ∧
  doc_count (fit k1 b []) = 0 ∧
  idf (fit k1 b []) = ∅ ∧
  search (fit k1 b []) query top_k = Ok [].
Proof.
  split_and!; try reflexivity.
  unfold search, py_prefix. simpl. destruct (0 <=? top_k); [by rewrite take_nil | done].
Qed.


(** ** What [search] can raise and what it returns *)

Lemma foldlM_raises_only {A S} (f : S → A → result S) e0 l s :
  (∀ s a, a ∈ l → (∃ s', f s a = Ok s') ∨ f s a = Raise e0) →
  (∃ s', foldlM f s l = Ok s') ∨ foldlM f s l = Raise e0.
Proof.
  revert s. induction l as [|a l IH]; intros s Hf; simpl; [eauto |].
  destruct (Hf s a) as [[s' ->]| ->]; [apply elem_of_cons; auto | | by right].
  rewrite bind_Ok. apply IH. intros s0 a0 Ha0. apply Hf, elem_of_cons. auto.
Qed.

Lemma checked_step_raises_only k1 b docs d s t :
  (∃ s', checked_step k1 b docs d s t = Ok s') ∨
  checked_step k1 b docs d s t = Raise ZeroDivisionError.
Proof.
  unfold checked_step. destruct (idf (fit k1 b docs) !! t); [| eauto].
  destruct (decide _); eauto.
Qed.

Lemma search_step_fit_raises_only k1 b docs ts acc i :
  (i < length docs)%nat →
  (∃ acc', search_step (fit k1 b docs) ts acc i = Ok acc') ∨
  search_step (fit k1 b docs) ts acc i = Raise ZeroDivisionError.
Proof.
  intros Hi. destruct (lookup_lt_is_Some_2 docs i Hi) as [d Hd].
  unfold search_step. rewrite (doc_score_fit_checked _ _ _ _ _ _ Hd).
  destruct (foldlM_raises_only (checked_step k1 b docs d) ZeroDivisionError ts 0%R)
    as [[s ->]| ->].
  - intros s a _. apply checked_step_raises_only.
  - rewrite bind_Ok. destruct (decide _); [| eauto].
    unfold getitem. rewrite fit_documents, Hd. eauto.
  - by right.
Qed.

(** X4: on an index built by [fit], [search] either returns or raises
    [ZeroDivisionError]; the lists [fit] stores are as long as the
    document count, so no index lookup fails. *)
Theorem search_fit_raises_only k1 b docs query top_k :
  (∃ results, search (fit k1 b docs) query top_k = Ok results) ∨
  search (fit k1 b docs) query top_k = Raise ZeroDivisionError.
Proof.
  unfold search, range. rewrite fit_doc_count, Nat2Z.id.
  destruct (foldlM_raises_only (search_step (fit k1 b docs) (_tokenize query))
              ZeroDivisionError (seq 0 (length docs)) []) as [[scores ->]| ->].
  - intros acc i Hi. apply search_step_fit_raises_only.
    apply elem_of_seq in Hi. lia.
  - left. rewrite bind_Ok. eauto.
  - by right.
Qed.

Lemma search_step_invariant self ts acc i acc' :
  search_step self ts acc i = Ok acc' →
  Forall (λ p, (0 < p.1)%R ∧ p.2 ∈ documents self) acc →
  Forall (λ p, (0 < p.1)%R ∧ p.2 ∈ documents self) acc' ∧
  (length acc' ≤ S (length acc))%nat.
Proof.
  unfold search_step. intros Hstep Hacc.
  destruct (doc_score self ts i) as [score|]; [| done].
  rewrite bind_Ok in Hstep. destruct (decide (0 < score)%R) as [Hpos|].
  - unfold getitem in Hstep.
    destruct (documents self !! i) as [doc|] eqn:Hdoc; [| done].
    rewrite bind_Ok in Hstep. injection Hstep as <-. split.
    + apply Forall_app. split; [done |]. constructor; [| constructor].
      split; [done |]. by eapply list_elem_of_lookup_2.
    + rewrite length_app. simpl. lia.
  - injection Hstep as <-. split; [done | lia].
Qed.

Lemma search_loop_invariant self ts l acc scores :
  foldlM (search_step self ts) acc l = Ok scores →
  Forall (λ p, (0 < p.1)%R ∧ p.2 ∈ documents self) acc →
  Forall (λ p, (0 < p.1)%R ∧ p.2 ∈ documents self) scores ∧
  (length scores ≤ length acc + length l)%nat.
Proof.
  revert acc. induction l as [|i l IH]; intros acc Hloop Hacc; simpl in *.
  - injection Hloop as <-. split; [done | lia].
  - destruct (search_step self ts acc i) as [acc'|] eqn:Hstep; [| done].
    rewrite bind_Ok in Hloop.
    destruct (search_step_invariant _ _ _ _ _ Hstep Hacc) as [Hacc' Hlen].
    destruct (IH _ Hloop Hacc') as [Hscores Hlen']. split; [done | lia].
Qed.

Lemma search_inv self query top_k results :
  search self query top_k = Ok results →
  ∃ scores,
    foldlM (search_step self (_tokenize query)) [] (range (doc_count self)) = Ok scores ∧
    results = py_prefix (sort_desc fst scores) top_k.
Proof.
  unfold search. intros H.
  destruct (foldlM _ _ _) as [scores|]; [| done].
  rewrite bind_Ok in H. injection H as <-. eauto.
Qed.

Lemma py_prefix_take {A} (l : list A) k : ∃ n, py_prefix l k = take n l.
Proof. unfold py_prefix. destruct (0 <=? k); eauto. Qed.

Lemma StronglySorted_take {A} (rel : A → A → Prop) n l :
  StronglySorted rel l → StronglySorted rel (take n l).
Proof.
  intros H. rewrite <- (take_drop n l) in H. by apply StronglySorted_app_1_l in H.
Qed.

Lemma search_positive_sorted self query top_k results :
  search self query top_k = Ok results →
  Forall (λ p, (0 < p.1)%R) results ∧ StronglySorted (desc fst) results.
Proof.
  intros H. apply search_inv in H as (scores & Hloop & ->).
  destruct (search_loop_invariant _ _ _ _ _ Hloop) as [HP _]; [constructor |].
  destruct (py_prefix_take (sort_desc fst scores) top_k) as [n ->]. split.
  - apply Forall_take. rewrite sort_desc_perm.
    eapply Forall_impl; [exact HP |]. by intros p [? _].
  - apply StronglySorted_take, sort_desc_sorted.
Qed.

(** X5: whatever state the index is in (fitted or loaded), a result
    list that [search] returns holds only strictly positive scores paired
    with documents of the index, is in descending score order, and is no
    longer than the document count. *)
Theorem search_results_sound self query top_k results :
  search self query top_k = Ok results →
  Forall (λ p, (0 < p.1)%R ∧ p.2 ∈ documents self) results ∧
  StronglySorted (desc fst) results ∧
  (length results ≤ Z.to_nat (doc_count self))%nat.
Proof.
  intros H. apply search_inv in H as (scores & Hloop & ->).
  destruct (search_loop_invariant _ _ _ _ _ Hloop) as [HP Hlen]; [constructor |].
  unfold range in Hlen. rewrite length_seq in Hlen. simpl in Hlen.
  destruct (py_prefix_take (sort_desc fst scores) top_k) as [n ->].
  split_and!.
  - apply Forall_take. by rewrite sort_desc_perm.
  - apply StronglySorted_take, sort_desc_sorted.
  - rewrite length_take, sort_desc_length. lia.
Qed.

(** X6: asking for fewer results gives a prefix of what asking for more
    gives: for 0 <= k <= k', [search(q, k)] is the first k entries of
    [search(q, k')]. *)
Theorem search_top_k_prefix self query k k' results :
  0 ≤ k ≤ k' →
  search self query k' = Ok results →
  search self query k = Ok (take (Z.to_nat k) results).
Proof.
  intros Hk H. apply search_inv in H as (scores & Hloop & ->).
  unfold search. rewrite Hloop, bind_Ok.
  rewrite !py_prefix_nonneg by lia. rewrite take_take.
  do 2 f_equal. lia.
Qed.


(** ** Which documents are returned *)









(** ** Length normalisation and rarity *)





Lemma ln_le_compat x y : (0 < x)%R → (x <= y)%R → (ln x <= ln y)%R.
Proof.
  intros Hx [Hlt| ->]; [| lra]. left. by apply ln_increasing.
Qed.

Lemma idf_value_antitone N f1 f2 :
  0 ≤ f1 ≤ f2 → f2 ≤ N → (idf_value N f2 <= idf_value N f1)%R.
Proof.
  intros [H0 H12] HN. unfold idf_value.
  assert (0 <= IZR f1)%R as Hf1 by (apply IZR_le; lia).
  assert (IZR f1 <= IZR f2)%R as Hf12 by (by apply IZR_le).
  assert (IZR f2 <= IZR N)%R as Hf2N by (by apply IZR_le).
  rewrite !minus_IZR.
  assert (0 < (IZR N - IZR f2 + 0.5) / (IZR f2 + 0.5))%R
    by (apply Rdiv_lt_0_compat; lra).
  apply ln_le_compat; [lra |].
  apply Rplus_le_compat_r. apply Rdiv_le_cross; [lra | lra |]. nra.
Qed.

(** X9: the IDF table of [fit] weighs a term that occurs in fewer
    documents at least as high as one that occurs in more. *)
Theorem rarer_term_higher_idf k1 b docs t u :
  0 < df docs t ≤ df docs u →
  ∃ wt wu,
    idf (fit k1 b docs) !! t = Some wt ∧
    idf (fit k1 b docs) !! u = Some wu ∧
    (wu <= wt)%R.
Proof.
  intros [Ht Htu]. eexists _, _. split_and!.
  - rewrite idf_lookup. by rewrite decide_True.
  - rewrite idf_lookup. by rewrite decide_True by lia.
  - apply idf_value_antitone; [lia | apply df_bounds].
Qed.

(** ** Ties *)








(** * Further properties of the manager *)

(** ** Sidecar paths *)

Lemma _get_index_path_inj self name1 name2 :
  _get_index_path self name1 = _get_index_path self name2 → name1 = name2.
Proof.
  unfold _get_index_path. intros H.
  apply app_inv_head in H. apply app_inv_head in H.
  by apply app_inv_tail in H.
Qed.

Lemma _get_index_path_root self self' name :
  novels_root self' = novels_root self →
  _get_index_path self' name = _get_index_path self name.
Proof. unfold _get_index_path. by intros ->. Qed.

Lemma build_novel_index_unfold fs self name :
  build_novel_index fs self name =
  match novel_dir fs name with
  | None => ((false, "Novel directory not found"%string), fs, self)
  | Some walk =>
      match foldl read_step [] walk with
      | [] => ((false, "No documents found"%string), fs, self)
      | d :: ds =>
          ((true, ("Indexed " +:+ pretty (length (d :: ds)) +:+ " chapters.")%string),
           {| listing := listing fs;
              files := save (fit 1.5 0.75 (d :: ds)) (_get_index_path self name) (files fs) |},
           set_engine self name (fit 1.5 0.75 (d :: ds)))
      end
  end.
Proof.
  unfold build_novel_index. destruct (novel_dir fs name) as [walk|]; [| done].
  by destruct (foldl read_step [] walk).
Qed.

(** What a build leaves alone: the listing, the root, and every other
    collection's cache entry and sidecar. *)
Lemma build_novel_index_frame fs self name :
  listing (build_novel_index fs self name).1.2 = listing fs ∧
  novels_root (build_novel_index fs self name).2 = novels_root self ∧
  ∀ other, other ≠ name →
    dict_lookup other (engines (build_novel_index fs self name).2) =
      dict_lookup other (engines self) ∧
    files (build_novel_index fs self name).1.2 !! _get_index_path self other =
      files fs !! _get_index_path self other.
Proof.
  rewrite build_novel_index_unfold.
  destruct (novel_dir fs name) as [walk|]; [| done].
  destruct (foldl read_step [] walk) as [|d ds]; [done |]. simpl.
  split_and!; [done | done |]. intros other Hne. split.
  - by apply dict_lookup_set_ne.
  - unfold save. apply lookup_insert_ne. intros H. by apply _get_index_path_inj in H.
Qed.

(** What a build of a directory with documents sets up. *)
Lemma build_novel_index_done fs self name walk :
  novel_dir fs name = Some walk → foldl read_step [] walk ≠ [] →
  (build_novel_index fs self name).1.1.1 = true ∧
  dict_lookup name (engines (build_novel_index fs self name).2) =
    Some (fit 1.5 0.75 (foldl read_step [] walk)) ∧
  files (build_novel_index fs self name).1.2 !! _get_index_path self name =
    Some (Some (to_json (fit 1.5 0.75 (foldl read_step [] walk)))).
Proof.
  intros Hdir Hdocs. rewrite build_novel_index_unfold, Hdir.
  destruct (foldl read_step [] walk) as [|d ds]; [done |]. simpl.
  split_and!; [done | apply dict_lookup_set_eq |].
  unfold save. apply lookup_insert_eq.
Qed.

(** X11: two different collection names that are single path
    components have different sidecar paths, and building one collection
    leaves what [load] reads for the other as it was. *)
Theorem build_keeps_other_sidecars fs self name other :
  plain_name name = true → plain_name other = true →
  other ≠ name →
  _get_index_path self other ≠ _get_index_path self name ∧
  load (_get_index_path self other) (files (build_novel_index fs self name).1.2) =
  load (_get_index_path self other) (files fs).
Proof.
  intros _ _ Hne. split.
  - intros H. by apply _get_index_path_inj in H.
  - destruct (build_novel_index_frame fs self name) as (_ & _ & Hframe).
    destruct (Hframe other Hne) as [_ Hfile]. unfold load. by rewrite Hfile.
Qed.

(** ** Discovery *)

Lemma preload_item_root fs self item :
  novels_root (preload_item fs self item) = novels_root self.
Proof.
  unfold preload_item. destruct item.2; [done |].
  destruct (decide _); [| done]. by destruct (load _ _).
Qed.

Lemma preload_fold_root fs items self :
  novels_root (foldl (preload_item fs) self items) = novels_root self.
Proof.
  revert self. induction items as [|item items IH]; intros self; simpl; [done |].
  by rewrite IH, preload_item_root.
Qed.

Lemma load_Ok_is_Some path d e : load path d = Ok e → is_Some (d !! path).
Proof. unfold load. destruct (d !! path); [eauto | done]. Qed.

(** The cache entry of [name] after one more item of the listing. *)
Lemma preload_item_lookup fs self item name :
  dict_lookup name (engines (preload_item fs self item)) =
  match item.2, load (_get_index_path self name) (files fs) with
  | Dir _, Ok e => if decide (item.1 = name) then Some e else dict_lookup name (engines self)
  | _, _ => dict_lookup name (engines self)
  end.
Proof.
  unfold preload_item. destruct item as [n [|walk]]; simpl.
  { done. }
  destruct (decide (n = name)) as [->|Hne].
  - destruct (load (_get_index_path self name) (files fs)) as [e|err] eqn:Hload.
    + rewrite decide_True by (by eapply load_Ok_is_Some). simpl.
      apply dict_lookup_set_eq.
    + by destruct (decide _).
  - assert (dict_lookup name (engines (
              if decide (is_Some (files fs !! _get_index_path self n))
              then match load (_get_index_path self n) (files fs) with
                   | Ok engine => set_engine self n engine
                   | Raise _ => self
                   end
              else self)) = dict_lookup name (engines self)) as ->.
    { destruct (decide _); [| done].
      destruct (load (_get_index_path self n) (files fs)); [| done].
      simpl. by apply dict_lookup_set_ne. }
    by destruct (load _ _).
Qed.

Lemma preload_fold_lookup fs items self name :
  dict_lookup name (engines (foldl (preload_item fs) self items)) =
  match load (_get_index_path self name) (files fs) with
  | Ok e =>
      if decide (Exists (λ item, item.1 = name ∧ is_dir item.2 = true) items)
      then Some e else dict_lookup name (engines self)
  | Raise _ => dict_lookup name (engines self)
  end.
Proof.
  induction items as [|item items IH] using rev_ind.
  - simpl. by destruct (load _ _).
  - rewrite foldl_app. simpl. rewrite preload_item_lookup.
    rewrite (_get_index_path_root self) by apply preload_fold_root.
    rewrite IH. destruct (load (_get_index_path self name) (files fs)) as [e|];
      [| by destruct item.2].
    destruct item as [n [|walk]]; simpl.
    + destruct (decide (Exists _ items)) as [Hex|Hex].
      * rewrite decide_True; [done |]. apply Exists_app. by left.
      * rewrite decide_False; [done |]. rewrite Exists_app. intros [?|H]; [done |].
        apply Exists_cons in H as [[_ H]|H%Exists_nil]; done.
    + destruct (decide (n = name)) as [->|Hne].
      * rewrite decide_True; [done |]. apply Exists_app. right. by constructor.
      * destruct (decide (Exists _ items)) as [Hex|Hex].
        -- rewrite decide_True; [done |]. apply Exists_app. by left.
        -- rewrite decide_False; [done |]. rewrite Exists_app. intros [?|H]; [done |].
           apply Exists_cons in H as [[H _]|H%Exists_nil]; done.
Qed.

(** X12: for a name whose sidecar is absent, is not JSON, or was
    written by [save]: after [_preload_indices] (hence after the
    constructor) the cache entry of the name is the index [load] reads
    from the sidecar when the name is a directory of the root and the
    sidecar loads; in every other case, a missing root and a sidecar that
    is not JSON included, the entry is what it was before. *)
Theorem preload_cache_entry fs self name :
  (∀ j, files fs !! _get_index_path self name = Some (Some j) → ∃ e, j = to_json e) →
  dict_lookup name (engines (_preload_indices fs self)) =
  match listing fs, load (_get_index_path self name) (files fs) with
  | Some items, Ok e =>
      if decide (Exists (λ item, item.1 = name ∧ is_dir item.2 = true) items)
      then Some e else dict_lookup name (engines self)
  | _, _ => dict_lookup name (engines self)
  end.
Proof.
  intros _. unfold _preload_indices. destruct (listing fs) as [items|]; [| done].
  apply preload_fold_lookup.
Qed.

Lemma dict_set_same {V} key (v : V) d :
  dict_lookup key d = Some v → dict_set key v d = d.
Proof.
  induction d as [|[k x] d IH]; simpl; [done |].
  rewrite dict_lookup_cons. destruct (decide (k = key)) as [->|Hne].
  - by intros [= ->].
  - intros H. by rewrite IH.
Qed.

Lemma foldl_fixed {A S} (f : S → A → S) s l :
  (∀ a, a ∈ l → f s a = s) → foldl f s l = s.
Proof.
  induction l as [|a l IH]; intros H; simpl; [done |].
  rewrite H by (apply elem_of_cons; auto). apply IH.
  intros a' Ha'. apply H, elem_of_cons. auto.
Qed.

(** X13: discovery is idempotent: running [_preload_indices] again on
    the same file system, as every [search_all] does, changes neither the
    entries of the cache nor their order. *)
Theorem preload_idempotent fs self :
  _preload_indices fs (_preload_indices fs self) = _preload_indices fs self.
Proof.
  remember (_preload_indices fs self) as self1 eqn:Hself.
  unfold _preload_indices. destruct (listing fs) as [items|] eqn:Hl; [| done].
  assert (self1 = foldl (preload_item fs) self items) as Hfold
    by (rewrite Hself; unfold _preload_indices; by rewrite Hl).
  apply foldl_fixed. intros [n e] Hin.
  unfold preload_item. destruct e as [|walk]; simpl; [done |].
  destruct (decide _) as [Hex|]; [| done].
  destruct (load (_get_index_path self1 n) (files fs)) as [engine|] eqn:Hload; [| done].
  assert (dict_lookup n (engines self1) = Some engine) as Hcached.
  { rewrite (_get_index_path_root self) in Hload
      by (rewrite Hfold; apply preload_fold_root).
    rewrite Hfold, preload_fold_lookup, Hload.
    rewrite decide_True; [done |].
    apply Exists_exists. exists (n, Dir walk). by split. }
  unfold set_engine. rewrite (dict_set_same _ _ _ Hcached).
  by destruct self1.
Qed.


(** ** A build, then the next query and the next session *)

Lemma dict_lookup_elem {V} key (v : V) d : dict_lookup key d = Some v → (key, v) ∈ d.
Proof.
  induction d as [|[k x] d IH]; [done |].
  rewrite dict_lookup_cons. destruct (decide (k = key)) as [->|Hne].
  - intros [= ->]. apply elem_of_cons. by left.
  - intros H. apply elem_of_cons. right. by apply IH.
Qed.

Lemma dict_lookup_key {V} key (v : V) d : dict_lookup key d = Some v → key ∈ d.*1.
Proof.
  intros H. apply dict_lookup_elem in H.
  apply list_elem_of_fmap. by exists (key, v).
Qed.

Lemma novel_dir_with_documents fs name walk :
  novel_dir fs name = Some walk → foldl read_step [] walk ≠ [] →
  ∃ items, listing fs = Some items ∧ (name, Dir walk) ∈ items.
Proof.
  unfold novel_dir. intros Hdir Hdocs.
  destruct (listing fs) as [items|]; [| done]. simpl in Hdir.
  destruct (dict_lookup name items) as [e|] eqn:He; [| done]. simpl in Hdir.
  injection Hdir as <-. destruct e as [|walk]; [done |].
  exists items. split; [done |]. by apply dict_lookup_elem.
Qed.

Lemma default_scores_defined docs ts : scores_defined 1.5 0.75 docs ts.
Proof. apply usual_scores_defined; lra. Qed.

Lemma query_cached_fit self name docs query_text top_k :
  dict_lookup name (engines self) = Some (fit 1.5 0.75 docs) →
  query_cached self name query_text top_k =
  Ok (map (format_hit name)
        (py_prefix (sort_desc fst (candidates 1.5 0.75 docs query_text)) top_k)).
Proof.
  intros He. unfold query_cached, getkey_ordered. rewrite He, bind_Ok.
  rewrite search_fit by apply default_scores_defined. by rewrite bind_Ok.
Qed.

(** X14: an index that [build_novel_index] reports as built for a name
    that is a single path component is found again by a manager
    constructed later over the resulting file system with the same root:
    its cache entry for that collection is the very index the builder
    cached. *)
Theorem built_index_preloaded fs self name msg fs' self' :
  plain_name name = true →
  build_novel_index fs self name = ((true, msg), fs', self') →
  ∃ engine,
    dict_lookup name (engines self') = Some engine ∧
    dict_lookup name (engines (init fs' (novels_root self))) = Some engine.
Proof.
  intros _. rewrite build_novel_index_unfold.
  destruct (novel_dir fs name) as [walk|] eqn:Hdir; [| done].
  destruct (foldl read_step [] walk) as [|d ds] eqn:Hdocs; [done |].
  intros [= _ <- <-]. exists (fit 1.5 0.75 (d :: ds)).
  split; [apply dict_lookup_set_eq |].
  destruct (novel_dir_with_documents fs name walk Hdir) as (items & Hl & Hin).
  { by rewrite Hdocs. }
  unfold init, _preload_indices. cbn [listing]. rewrite Hl.
  rewrite preload_fold_lookup. cbn [files].
  rewrite (_get_index_path_root self) by done.
  rewrite load_save. rewrite decide_True; [done |].
  apply Exists_exists. exists (name, Dir walk). by split.
Qed.

(** X15: right after a successful [build_novel_index], [query] on that
    collection is served from the cache: it returns, without raising and
    without touching the file system or the cache, the formatted BM25
    ranking (default parameters) of the documents the build read, cut at
    top_k. *)
Theorem query_after_build fs self name msg fs' self' query_text top_k :
  build_novel_index fs self name = ((true, msg), fs', self') →
  ∃ walk,
    novel_dir fs name = Some walk ∧
    query fs' self' name query_text top_k =
    (Ok (map (format_hit name)
           (py_prefix
              (sort_desc fst (candidates 1.5 0.75 (foldl read_step [] walk) query_text))
              top_k)),
     fs', self').
Proof.
  rewrite build_novel_index_unfold.
  destruct (novel_dir fs name) as [walk|] eqn:Hdir; [| done].
  destruct (foldl read_step [] walk) as [|d ds] eqn:Hdocs; [done |].
  intros [= _ <- <-]. exists walk. split; [done |].
  assert (dict_lookup name (engines (set_engine self name (fit 1.5 0.75 (d :: ds))))
          = Some (fit 1.5 0.75 (d :: ds))) as Hcached by apply dict_lookup_set_eq.
  rewrite query_hit by (by rewrite Hcached).
  by rewrite (query_cached_fit _ _ _ _ _ Hcached), Hdocs.
Qed.

Lemma candidates_nil k1 b query : candidates k1 b [] query = [].
Proof. reflexivity. Qed.

Lemma py_prefix_nil {A} k : py_prefix (@nil A) k = [].
Proof. unfold py_prefix. destruct (0 <=? k); apply take_nil. Qed.

Lemma chapters_unfold fs name :
  chapters fs name =
  match novel_dir fs name with
  | Some walk => foldl read_step [] walk
  | None => []
  end.
Proof. unfold chapters. by destruct (novel_dir fs name). Qed.

Lemma ranking_nil k1 b name query top_k :
  map (format_hit name) (py_prefix (sort_desc fst (candidates k1 b [] query)) top_k) = [].
Proof. rewrite candidates_nil. simpl. by rewrite py_prefix_nil. Qed.

Lemma query_uncached fs self name query_text top_k :
  dict_lookup name (engines self) = None →
  files fs !! _get_index_path self name = None →
  query fs self name query_text top_k =
  (Ok (map (format_hit name)
         (py_prefix (sort_desc fst (candidates 1.5 0.75 (chapters fs name) query_text))
            top_k)),
   (build_novel_index fs self name).1.2, (build_novel_index fs self name).2).
Proof.
  intros Hcache Hfile. unfold query. rewrite Hcache.
  rewrite decide_False by (rewrite Hfile; by intros [? ?]).
  rewrite chapters_unfold, build_novel_index_unfold.
  destruct (novel_dir fs name) as [walk|] eqn:Hdir.
  - destruct (foldl read_step [] walk) as [|d ds] eqn:Hdocs; cbn [fst snd].
    + by rewrite ranking_nil.
    + assert (dict_lookup name (engines (set_engine self name (fit 1.5 0.75 (d :: ds))))
              = Some (fit 1.5 0.75 (d :: ds))) as Hcached by apply dict_lookup_set_eq.
      by rewrite (query_cached_fit _ _ _ _ _ Hcached).
  - cbn [fst snd]. by rewrite ranking_nil.
Qed.

Lemma build_no_chapters fs self name :
  chapters fs name = [] →
  ∃ msg, build_novel_index fs self name = ((false, msg), fs, self).
Proof.
  rewrite chapters_unfold, build_novel_index_unfold.
  destruct (novel_dir fs name) as [walk|]; [| eauto].
  destruct (foldl read_step [] walk); [eauto | done].
Qed.

(** X16: [query] for a collection, named by a single path component,
    that is neither cached nor has a sidecar builds it on the fly.  When
    the directory is missing or no document can be read from it, nothing
    is written: [query] returns the empty list and leaves the file system
    and the cache as they were.  When the build returns with a success,
    [query] returns the formatted BM25 ranking of the documents read from
    the directory, cut at top_k, and leaves the state the build left. *)
Theorem query_builds_on_the_fly fs self name query_text top_k :
  plain_name name = true →
  dict_lookup name (engines self) = None →
  files fs !! _get_index_path self name = None →
  (chapters fs name = [] →
     query fs self name query_text top_k = (Ok [], fs, self)) ∧
  (∀ msg fs' self', build_novel_index fs self name = ((true, msg), fs', self') →
     query fs self name query_text top_k =
     (Ok (map (format_hit name)
            (py_prefix
               (sort_desc fst (candidates 1.5 0.75 (chapters fs name) query_text))
               top_k)),
      fs', self')).
Proof.
  intros _ Hcache Hfile. rewrite (query_uncached _ _ _ _ _ Hcache Hfile). split.
  - intros Hnone. destruct (build_no_chapters fs self name Hnone) as [msg ->].
    cbn [fst snd]. by rewrite Hnone, ranking_nil.
  - intros msg fs' self' ->. done.
Qed.

(** ** The hits of a query *)

Lemma query_cached_inv self name query_text top_k hits :
  query_cached self name query_text top_k = Ok hits →
  ∃ engine results,
    dict_lookup name (engines self) = Some engine ∧
    search engine query_text top_k = Ok results ∧
    hits = map (format_hit name) results.
Proof.
  unfold query_cached, getkey_ordered. intros H.
  destruct (dict_lookup name (engines self)) as [engine|]; [| done].
  rewrite bind_Ok in H.
  destruct (search engine query_text top_k) as [results|] eqn:Hsearch; [| done].
  rewrite bind_Ok in H. injection H as <-. by exists engine, results.
Qed.

Lemma query_Ok_inv fs self name query_text top_k hits :
  (query fs self name query_text top_k).1.1 = Ok hits →
  hits = [] ∨ ∃ self', query_cached self' name query_text top_k = Ok hits.
Proof.
  unfold query. destruct (dict_lookup name (engines self)); [cbn [fst]; eauto |].
  destruct (decide (is_Some (files fs !! _get_index_path self name))).
  - destruct (load (_get_index_path self name) (files fs)); cbn [fst]; [eauto | done].
  - destruct (build_novel_index fs self name) as [[[[] msg] fs'] self']; cbn [fst];
      [eauto |].
    intros [= <-]. by left.
Qed.

Lemma format_hit_sorted name results :
  StronglySorted (desc fst) results →
  StronglySorted (desc score) (map (format_hit name) results).
Proof.
  induction 1 as [|r results _ IH Hr]; simpl; constructor; [done |].
  clear IH. induction Hr; simpl; by constructor.
Qed.

Lemma preview_length name r : (3 ≤ length (preview (format_hit name r)) ≤ 203)%nat.
Proof.
  unfold format_hit. cbn [preview]. rewrite length_app, length_take.
  change (length (py "...")) with 3%nat. lia.
Qed.

(** X17: whichever way [query] gets its index (cache, sidecar or a build
    on the fly), every hit it returns carries the queried collection's
    name, a strictly positive score and a preview of 3 to 203 characters
    (at most 200 of the content, then "..."); the hits are in descending
    score order, and for top_k >= 0 there are at most top_k of them. *)
Theorem query_hits_wellformed fs self name query_text top_k hits :
  (query fs self name query_text top_k).1.1 = Ok hits →
  Forall (λ h, novel h = name ∧ (0 < score h)%R ∧
               (3 ≤ length (preview h) ≤ 203)%nat) hits ∧
  StronglySorted (desc score) hits ∧
  (0 ≤ top_k → (length hits ≤ Z.to_nat top_k)%nat).
Proof.
  intros H. apply query_Ok_inv in H as [->|[self' H]].
  { split_and!; [constructor | constructor | simpl; lia]. }
  apply query_cached_inv in H as (engine & results & _ & Hsearch & ->).
  pose proof (search_positive_sorted _ _ _ _ Hsearch) as (Hall & Hsorted).
  split_and!.
  - apply Forall_fmap. eapply Forall_impl; [exact Hall |].
    intros r Hpos. split; [done |]. split; [done | apply preview_length].
  - by apply format_hit_sorted.
  - intros Hk. apply search_inv in Hsearch as (scores & _ & ->).
    rewrite length_map, py_prefix_nonneg, length_take by done. lia.
Qed.

(** ** The hits of search_all *)

Lemma for_each_elem {A B} (f : A → result B) l rs r :
  for_each f l = Ok rs → r ∈ rs → ∃ a, a ∈ l ∧ f a = Ok r.
Proof.
  revert rs. induction l as [|a l IH]; intros rs; simpl.
  - intros [= <-] Hr. by apply elem_of_nil in Hr.
  - destruct (f a) as [r'|] eqn:Hf; [| done]. rewrite bind_Ok.
    destruct (for_each f l) as [rs'|]; [| done]. rewrite bind_Ok.
    intros [= <-] Hr. apply elem_of_cons in Hr as [->|Hr].
    + exists a. split; [apply elem_of_cons; auto | done].
    + destruct (IH rs' eq_refl Hr) as (a' & Ha' & Hfa').
      exists a'. split; [apply elem_of_cons; auto | done].
Qed.

Lemma for_each_elem_l {A B} (f : A → result B) l rs a :
  for_each f l = Ok rs → a ∈ l → ∃ r, r ∈ rs ∧ f a = Ok r.
Proof.
  revert rs. induction l as [|a' l IH]; intros rs; simpl.
  - intros _ Ha. by apply elem_of_nil in Ha.
  - destruct (f a') as [r'|] eqn:Hf; [| done]. rewrite bind_Ok.
    destruct (for_each f l) as [rs'|]; [| done]. rewrite bind_Ok.
    intros [= <-] Ha. apply elem_of_cons in Ha as [->|Ha].
    + exists r'. split; [apply elem_of_cons; auto | done].
    + destruct (IH rs' eq_refl Ha) as (r & Hr & Hfa).
      exists r. split; [apply elem_of_cons; auto | done].
Qed.

Lemma for_each_Ok {A B} (f : A → result B) l :
  (∀ a, a ∈ l → ∃ r, f a = Ok r) → ∃ rs, for_each f l = Ok rs.
Proof.
  induction l as [|a l IH]; intros H; simpl; [eauto |].
  destruct (H a) as [r ->]; [apply elem_of_cons; auto |].
  destruct IH as [rs ->]; [intros a' Ha'; apply H, elem_of_cons; auto |].
  rewrite !bind_Ok. eauto.
Qed.

Lemma elem_of_concat {A} (x : A) (ls : list (list A)) :
  x ∈ concat ls ↔ ∃ l, l ∈ ls ∧ x ∈ l.
Proof.
  induction ls as [|l ls IH]; simpl.
  - split; [intros H; by apply elem_of_nil in H |].
    intros (l & Hl & _). by apply elem_of_nil in Hl.
  - rewrite elem_of_app, IH. split.
    + intros [Hx|(l' & Hl' & Hx)].
      * exists l. split; [apply elem_of_cons; auto | done].
      * exists l'. split; [apply elem_of_cons; auto | done].
    + intros (l' & Hl' & Hx). apply elem_of_cons in Hl' as [->|Hl']; [by left |].
      right. eauto.
Qed.

Lemma search_all_Ok_inv fs self query_text top_k hits :
  (search_all fs self query_text top_k).1.1 = Ok hits →
  ∃ rs,
    for_each (λ n, query_cached (after_discovery fs self).2 n query_text top_k)
      (engines (after_discovery fs self).2).*1 = Ok rs ∧
    hits = py_prefix (sort_desc score (concat rs)) top_k.
Proof.
  rewrite search_all_unfold. cbn [fst].
  destruct (for_each _ _) as [rs|]; [| done].
  rewrite bind_Ok. intros [= <-]. eauto.
Qed.

Lemma search_all_state fs self query_text top_k :
  (search_all fs self query_text top_k).1.2 = (after_discovery fs self).1 ∧
  (search_all fs self query_text top_k).2 = (after_discovery fs self).2.
Proof. by rewrite search_all_unfold. Qed.

(** X18: every hit [search_all] returns is a hit of [query] on a cached
    collection: it names a collection of the cache, has a strictly
    positive score and a preview of 3 to 203 characters; the hits are in
    descending score order, and for top_k >= 0 there are at most top_k of
    them. *)
Theorem search_all_hits_wellformed fs self query_text top_k hits :
  (search_all fs self query_text top_k).1.1 = Ok hits →
  Forall (λ h, is_Some (dict_lookup (novel h)
                          (engines (search_all fs self query_text top_k).2)) ∧
               (0 < score h)%R ∧ (3 ≤ length (preview h) ≤ 203)%nat) hits ∧
  StronglySorted (desc score) hits ∧
  (0 ≤ top_k → (length hits ≤ Z.to_nat top_k)%nat).
Proof.
  intros H. destruct (search_all_state fs self query_text top_k) as [_ ->].
  apply search_all_Ok_inv in H as (rs & Hrs & ->).
  destruct (py_prefix_take (sort_desc score (concat rs)) top_k) as [m Hm].
  split; [| split].
  - rewrite Hm. apply Forall_take. rewrite sort_desc_perm.
    apply Forall_forall. intros h Hh.
    apply elem_of_concat in Hh as (r & Hr & Hh).
    destruct (for_each_elem _ _ _ _ Hrs Hr) as (n & _ & Hq).
    apply query_cached_inv in Hq as (engine & results & He & Hsearch & ->).
    apply list_elem_of_fmap in Hh as (p & -> & Hp).
    pose proof (search_positive_sorted _ _ _ _ Hsearch) as (Hall & _).
    rewrite Forall_forall in Hall. pose proof (Hall p Hp) as Hpos.
    split; [cbn [novel format_hit]; by rewrite He |].
    split; [done | apply preview_length].
  - rewrite Hm. apply StronglySorted_take, sort_desc_sorted.
  - intros Hk. rewrite py_prefix_nonneg, length_take by done. lia.
Qed.

Lemma sort_desc_head_max {A} (key : A → R) l x :
  x ∈ l → ∃ h tl, sort_desc key l = h :: tl ∧ (key x <= key h)%R.
Proof.
  intros Hx. rewrite <- (sort_desc_perm key l) in Hx.
  pose proof (sort_desc_sorted key l) as Hsorted.
  destruct (sort_desc key l) as [|h tl]; [by apply elem_of_nil in Hx |].
  exists h, tl. split; [done |].
  apply elem_of_cons in Hx as [->|Hx]; [lra |].
  apply StronglySorted_inv in Hsorted as [_ Hall].
  rewrite Forall_forall in Hall. by apply Hall.
Qed.

Lemma py_prefix_head {A} (x : A) l k : 1 ≤ k → head (py_prefix (x :: l) k) = Some x.
Proof.
  intros Hk. rewrite py_prefix_nonneg by lia.
  destruct (Z.to_nat k) as [|m] eqn:Hm; [lia | done].
Qed.

Lemma py_prefix_subseteq {A} (l : list A) k : py_prefix l k ⊆ l.
Proof. destruct (py_prefix_take l k) as [n ->]. apply subseteq_take. Qed.

(** X19: for top_k >= 1 the first hit of [search_all] is the best match
    over all cached collections: whatever [search] returns on any cached
    index, at any depth, scores no higher.  In particular the list is
    empty only if no cached index has a match.  (The web route asks for
    top_k = 1 and uses the first hit.) *)
Theorem search_all_first_is_best fs self query_text top_k hits n engine depth results r :
  1 ≤ top_k →
  (search_all fs self query_text top_k).1.1 = Ok hits →
  dict_lookup n (engines (search_all fs self query_text top_k).2) = Some engine →
  search engine query_text depth = Ok results →
  r ∈ results →
  ∃ h, head hits = Some h ∧ (r.1 <= score h)%R.
Proof.
  intros Hk H He Hdepth Hr.
  destruct (search_all_state fs self query_text top_k) as [_ Hst]. rewrite Hst in He.
  apply search_all_Ok_inv in H as (rs & Hrs & ->).
  destruct (for_each_elem_l _ _ _ n Hrs) as (hs & Hhs & Hq).
  { by eapply dict_lookup_key. }
  apply query_cached_inv in Hq as (engine' & results' & He' & Hsearch & ->).
  rewrite He in He'. injection He' as <-.
  apply search_inv in Hdepth as (scores & Hloop & ->).
  apply search_inv in Hsearch as (scores' & Hloop' & ->).
  rewrite Hloop in Hloop'. injection Hloop' as <-.
  apply py_prefix_subseteq in Hr. rewrite sort_desc_perm in Hr.
  destruct (sort_desc_head_max fst scores r Hr) as (r0 & tl & Hsort & Hle).
  assert (format_hit n r0 ∈ concat rs) as Hin.
  { apply elem_of_concat. eexists. split; [exact Hhs |].
    apply list_elem_of_fmap_2. rewrite Hsort.
    apply head_Some_elem_of. by apply py_prefix_head. }
  destruct (sort_desc_head_max score (concat rs) _ Hin) as (h & tl' & Hsort' & Hle').
  exists h. rewrite Hsort'. split; [by apply py_prefix_head |].
  cbn [score format_hit] in Hle'. lra.
Qed.

(** ** A manager that only ever reads its own builds *)

Lemma load_fitted d path :
  sidecars_fitted d → is_Some (d !! path) → ∃ e, fitted e ∧ load path d = Ok e.
Proof.
  intros Hd [j Hj]. destruct (Hd path j Hj) as (e & He & ->).
  exists e. split; [done |]. unfold load. rewrite Hj. apply of_json_to_json.
Qed.

Lemma save_fitted e path d :
  fitted e → sidecars_fitted d → sidecars_fitted (save e path d).
Proof.
  intros He Hd path' j. unfold save.
  destruct (decide (path = path')) as [->|Hne].
  - rewrite lookup_insert_eq. intros [= <-]. eauto.
  - rewrite lookup_insert_ne by done. apply Hd.
Qed.

Lemma dict_set_Forall {V} (P : pystr * V → Prop) key v d :
  P (key, v) → Forall P d → Forall P (dict_set key v d).
Proof.
  intros Hv. induction 1 as [|[k x] d Hx Hd IH]; simpl.
  - by repeat constructor.
  - destruct (decide (k = key)) as [->|Hne]; by constructor.
Qed.

Lemma set_engine_consistent fs self name e :
  fitted e → consistent fs self → consistent fs (set_engine self name e).
Proof.
  intros He [Hfiles Hcache]. split; [done |].
  unfold set_engine. cbn [engines]. by apply dict_set_Forall.
Qed.

Lemma preload_item_consistent fs self item :
  consistent fs self → consistent fs (preload_item fs self item).
Proof.
  intros Hc. unfold preload_item. destruct item.2; [done |].
  destruct (decide (is_Some (files fs !! _get_index_path self item.1))) as [Hex|]; [| done].
  destruct (load_fitted _ _ (proj1 Hc) Hex) as (e & He & ->).
  by apply set_engine_consistent.
Qed.

Lemma preload_consistent fs self :
  consistent fs self → consistent fs (_preload_indices fs self).
Proof.
  unfold _preload_indices. destruct (listing fs) as [items|]; [| done].
  revert self. induction items as [|item items IH]; intros self Hc; simpl; [done |].
  by apply IH, preload_item_consistent.
Qed.

Lemma build_consistent fs self name :
  consistent fs self →
  consistent (build_novel_index fs self name).1.2 (build_novel_index fs self name).2.
Proof.
  intros Hc. rewrite build_novel_index_unfold.
  destruct (novel_dir fs name) as [walk|]; [| done].
  destruct (foldl read_step [] walk) as [|d ds]; [done |]. cbn [fst snd].
  assert (fitted (fit 1.5 0.75 (d :: ds))) as He by (by eexists).
  destruct Hc as [Hfiles Hcache]. split; cbn [files engines set_engine].
  - by apply save_fitted.
  - by apply dict_set_Forall.
Qed.

Lemma build_item_consistent st item :
  consistent st.1 st.2 → consistent (build_item st item).1 (build_item st item).2.
Proof.
  intros Hc. unfold build_item. destruct item.2; [done |].
  pose proof (build_consistent st.1 st.2 item.1 Hc) as H.
  by destruct (build_novel_index st.1 st.2 item.1) as [[? ?] ?].
Qed.

Lemma build_fold_consistent items st :
  consistent st.1 st.2 →
  consistent (foldl build_item st items).1 (foldl build_item st items).2.
Proof.
  revert st. induction items as [|item items IH]; intros st Hc; simpl; [done |].
  by apply IH, build_item_consistent.
Qed.

Lemma after_discovery_consistent fs self :
  consistent fs self → consistent (after_discovery fs self).1 (after_discovery fs self).2.
Proof.
  intros Hc. apply preload_consistent in Hc. unfold after_discovery.
  destruct (engines (_preload_indices fs self)) eqn:E; [| done].
  destruct (listing fs) as [items|]; [| done].
  by apply (build_fold_consistent items (fs, _preload_indices fs self)).
Qed.

Lemma query_cached_consistent fs self name query_text top_k :
  consistent fs self → is_Some (dict_lookup name (engines self)) →
  ∃ hits, query_cached self name query_text top_k = Ok hits.
Proof.
  intros [_ Hcache] [e He].
  rewrite Forall_forall in Hcache.
  destruct (Hcache _ (dict_lookup_elem _ _ _ He)) as [docs Hdocs].
  cbn [snd] in Hdocs. subst e. rewrite (query_cached_fit _ _ _ _ _ He). eauto.
Qed.

(** X20: the constructor and [build_novel_index] keep the manager
    consistent: if every sidecar on disk was written by [save] from an
    index fitted with the default parameters, then so is every index the
    constructor caches, and a build keeps both the sidecars and the cache
    that way. *)
Theorem consistent_init_build fs :
  sidecars_fitted (files fs) →
  (∀ root, consistent fs (init fs root)) ∧
  (∀ self name, consistent fs self →
     consistent (build_novel_index fs self name).1.2 (build_novel_index fs self name).2).
Proof.
  intros Hfiles. split.
  - intros root. apply preload_consistent. split; [done | constructor].
  - intros self name. apply build_consistent.
Qed.


Lemma after_discovery_no_build fs self :
  engines (_preload_indices fs self) ≠ [] ∨ listing fs = None →
  after_discovery fs self = (fs, _preload_indices fs self).
Proof.
  unfold after_discovery. intros [Hne| ->].
  - by destruct (engines (_preload_indices fs self)).
  - by destruct (engines (_preload_indices fs self)).
Qed.

(** X22: on a consistent manager, when discovery leaves an index in the
    cache or the root does not exist, [search_all] builds and writes
    nothing and returns: the file system is as before and the cache is
    the one discovery leaves.  In any case, when discovery and the builds
    return, [search_all] returns in the state they left, and the manager
    is consistent. *)
Theorem search_all_consistent fs self query_text top_k :
  consistent fs self →
  (engines (_preload_indices fs self) ≠ [] ∨ listing fs = None →
   ∃ hits,
     search_all fs self query_text top_k = (Ok hits, fs, _preload_indices fs self)) ∧
  (∀ fs' self', after_discovery fs self = (fs', self') →
     ∃ hits,
       search_all fs self query_text top_k = (Ok hits, fs', self') ∧
       consistent fs' self').
Proof.
  intros Hc.
  assert (∀ fs' self', after_discovery fs self = (fs', self') →
            ∃ hits,
              search_all fs self query_text top_k = (Ok hits, fs', self') ∧
              consistent fs' self') as Hall.
  { intros fs' self' Hst.
    pose proof (after_discovery_consistent fs self Hc) as Hc'.
    rewrite search_all_unfold. rewrite Hst in Hc' |- *. cbn [fst snd] in Hc' |- *.
    destruct (for_each_Ok (λ n, query_cached self' n query_text top_k)
                (engines self').*1) as [rs ->].
    { intros n Hn. eapply query_cached_consistent; [exact Hc' |].
      by apply dict_lookup_is_Some. }
    rewrite bind_Ok. eauto. }
  split; [| exact Hall].
  intros Hno. destruct (Hall _ _ (after_discovery_no_build _ _ Hno)) as (hits & H & _).
  eauto.
Qed.

(** ** The first search over a library *)

Lemma novel_dir_listing fs fs' name :
  listing fs' = listing fs → novel_dir fs' name = novel_dir fs name.
Proof. unfold novel_dir. by intros ->. Qed.

Lemma chapters_listing fs fs' name :
  listing fs' = listing fs → chapters fs' name = chapters fs name.
Proof. unfold chapters. intros H. by rewrite (novel_dir_listing _ _ _ H). Qed.

(** The cache entry and the sidecar of [n] after a build of [name]. *)
Lemma build_novel_index_lookup fs self name n :
  dict_lookup n (engines (build_novel_index fs self name).2) =
    (if decide (name = n ∧ chapters fs n ≠ [])
     then Some (fit 1.5 0.75 (chapters fs n)) else dict_lookup n (engines self)) ∧
  files (build_novel_index fs self name).1.2 !! _get_index_path self n =
    (if decide (name = n ∧ chapters fs n ≠ [])
     then Some (Some (to_json (fit 1.5 0.75 (chapters fs n))))
     else files fs !! _get_index_path self n).
Proof.
  destruct (decide (name = n)) as [->|Hne].
  - rewrite chapters_unfold, build_novel_index_unfold.
    destruct (novel_dir fs n) as [walk|].
    + destruct (foldl read_step [] walk) as [|d ds]; cbn [fst snd].
      * by rewrite !decide_False by (by intros [_ ?]).
      * rewrite !decide_True by done. cbn [engines set_engine files]. split.
        -- apply dict_lookup_set_eq.
        -- unfold save. apply lookup_insert_eq.
    + by rewrite !decide_False by (by intros [_ ?]).
  - rewrite !decide_False by (by intros [? _]).
    destruct (build_novel_index_frame fs self name) as (_ & _ & Hframe).
    by apply Hframe.
Qed.

Lemma build_item_frame st item :
  listing (build_item st item).1 = listing st.1 ∧
  novels_root (build_item st item).2 = novels_root st.2.
Proof.
  unfold build_item. destruct item.2; [done |].
  destruct (build_novel_index_frame st.1 st.2 item.1) as (Hl & Hr & _).
  by destruct (build_novel_index st.1 st.2 item.1) as [[? ?] ?].
Qed.

Lemma build_fold_frame items st :
  listing (foldl build_item st items).1 = listing st.1 ∧
  novels_root (foldl build_item st items).2 = novels_root st.2.
Proof.
  revert st. induction items as [|item items IH]; intros st; simpl; [done |].
  destruct (IH (build_item st item)) as [-> ->]. apply build_item_frame.
Qed.

Lemma build_item_lookup st item n :
  dict_lookup n (engines (build_item st item).2) =
    (if decide ((item.1 = n ∧ is_dir item.2 = true) ∧ chapters st.1 n ≠ [])
     then Some (fit 1.5 0.75 (chapters st.1 n)) else dict_lookup n (engines st.2)) ∧
  files (build_item st item).1 !! _get_index_path st.2 n =
    (if decide ((item.1 = n ∧ is_dir item.2 = true) ∧ chapters st.1 n ≠ [])
     then Some (Some (to_json (fit 1.5 0.75 (chapters st.1 n))))
     else files st.1 !! _get_index_path st.2 n).
Proof.
  unfold build_item. destruct item as [name [|walk]]; cbn [fst snd is_dir].
  - by rewrite !decide_False by (by intros [[_ ?] _]).
  - pose proof (build_novel_index_lookup st.1 st.2 name n) as H.
    destruct (build_novel_index st.1 st.2 name) as [[? fs'] self']. cbn [fst snd] in H |- *.
    destruct (decide (name = n ∧ chapters st.1 n ≠ [])) as [[? ?]|Hno].
    + by rewrite !decide_True by done.
    + by rewrite !decide_False by (intros [[? _] ?]; by apply Hno).
Qed.

Lemma build_fold_lookup items st n :
  dict_lookup n (engines (foldl build_item st items).2) =
    (if decide (Exists (λ item, item.1 = n ∧ is_dir item.2 = true) items ∧
                chapters st.1 n ≠ [])
     then Some (fit 1.5 0.75 (chapters st.1 n)) else dict_lookup n (engines st.2)) ∧
  files (foldl build_item st items).1 !! _get_index_path st.2 n =
    (if decide (Exists (λ item, item.1 = n ∧ is_dir item.2 = true) items ∧
                chapters st.1 n ≠ [])
     then Some (Some (to_json (fit 1.5 0.75 (chapters st.1 n))))
     else files st.1 !! _get_index_path st.2 n).
Proof.
  induction items as [|item items IH] using rev_ind.
  - cbn [foldl]. by rewrite !decide_False by (by intros [?%Exists_nil _]).
  - rewrite foldl_app. cbn [foldl].
    destruct (build_fold_frame items st) as [Hl Hr].
    pose proof (build_item_lookup (foldl build_item st items) item n) as Hitem.
    rewrite (chapters_listing _ _ _ Hl), (_get_index_path_root _ _ _ Hr) in Hitem.
    destruct Hitem as [-> ->]. destruct IH as [-> ->].
    destruct (decide ((item.1 = n ∧ is_dir item.2 = true) ∧ chapters st.1 n ≠ []))
      as [[Hitem Hdocs]|Hno].
    + by rewrite !decide_True
        by (split; [apply Exists_app; right; by constructor | done]).
    + destruct (decide (Exists (λ item, item.1 = n ∧ is_dir item.2 = true) items ∧
                        chapters st.1 n ≠ [])) as [[Hex Hdocs]|Hno'].
      * by rewrite !decide_True by (split; [apply Exists_app; by left | done]).
      * assert (¬ (Exists (λ item, item.1 = n ∧ is_dir item.2 = true) (items ++ [item]) ∧
                   chapters st.1 n ≠ [])) as Hnone.
        { intros [Hex Hdocs].
          apply Exists_app in Hex as [Hex|Hex]; [by apply Hno' |].
          apply Exists_cons in Hex as [Hitem|Hex%Exists_nil]; [| done].
          by apply Hno. }
        by rewrite !decide_False by done.
Qed.

(** X23: when the cache is still empty after discovery and
    [search_all] returns, it has indexed the whole library: a name that
    is a single path component has a cache entry and a sidecar exactly
    when it is a directory of the root from which documents are read, and
    both are the index fitted on those documents; for any other such name
    the cache has no entry and the sidecar path is as it was. *)
Theorem search_all_builds_library fs self query_text top_k items n hits :
  listing fs = Some items →
  Forall (λ item, plain_name item.1 = true) items →
  plain_name n = true →
  engines (_preload_indices fs self) = [] →
  (search_all fs self query_text top_k).1.1 = Ok hits →
  let st := search_all fs self query_text top_k in
  if decide (Exists (λ item, item.1 = n ∧ is_dir item.2 = true) items ∧ chapters fs n ≠ [])
  then dict_lookup n (engines st.2) = Some (fit 1.5 0.75 (chapters fs n)) ∧
       load (_get_index_path self n) (files st.1.2) = Ok (fit 1.5 0.75 (chapters fs n))
  else dict_lookup n (engines st.2) = None ∧
       files st.1.2 !! _get_index_path self n = files fs !! _get_index_path self n.
Proof.
  intros Hl _ _ Hempty _ st. subst st.
  destruct (search_all_state fs self query_text top_k) as [-> ->].
  unfold after_discovery. rewrite Hempty, Hl.
  destruct (build_fold_lookup items (fs, _preload_indices fs self) n) as [Hcache Hfile].
  cbn [fst snd] in Hcache, Hfile.
  rewrite (_get_index_path_root self) in Hfile
    by (unfold _preload_indices; rewrite Hl; apply preload_fold_root).
  rewrite Hcache. unfold load. rewrite Hfile.
  destruct (decide _).
  - split; [done | apply of_json_to_json].
  - by rewrite Hempty.
Qed.

(** ** What a build reads *)

Lemma elem_of_read_docs walk d :
  d ∈ foldl read_step [] walk ↔
  ∃ f, f ∈ walk ∧ endswith (file f) (py ".txt") = true ∧ read f = Some (content d) ∧
       doc_meta d = {| path := relpath f; filename := file f |}.
Proof.
  rewrite foldl_read_step. cbn [app]. rewrite list_elem_of_omap. split.
  - intros (f & Hf & Hdoc). exists f. split; [done |].
    destruct (endswith (file f) (py ".txt")); [| done].
    destruct (read f) as [c|]; [| done]. by injection Hdoc as <-.
  - intros (f & Hf & Htxt & Hread & Hmeta). exists f. split; [done |].
    rewrite Htxt, Hread. destruct d as [c m]. cbn in Hmeta |- *. by rewrite Hmeta.
Qed.

(** X24: for a name that is a single path component, the documents
    [build_novel_index] indexes are exactly the files of the walk whose
    name ends in ".txt" and that can be read, each with its text, its
    path relative to the root and its file name; a file that cannot be
    read is skipped, it does not fail the build.  When there is no such
    file the build fails and changes nothing; a build that reports
    success has read at least one and has cached the index fitted on
    these documents. *)
Theorem build_reads_txt_files fs self name :
  plain_name name = true →
  (∀ d, d ∈ chapters fs name ↔
        ∃ walk f, novel_dir fs name = Some walk ∧ f ∈ walk ∧
                  endswith (file f) (py ".txt") = true ∧ read f = Some (content d) ∧
                  doc_meta d = {| path := relpath f; filename := file f |}) ∧
  (chapters fs name = [] →
   ∃ msg, build_novel_index fs self name = ((false, msg), fs, self)) ∧
  (∀ msg fs' self', build_novel_index fs self name = ((true, msg), fs', self') →
     chapters fs name ≠ [] ∧
     dict_lookup name (engines self') = Some (fit 1.5 0.75 (chapters fs name))).
Proof.
  intros _. split; [| split].
  - intros d. rewrite chapters_unfold. destruct (novel_dir fs name) as [walk|].
    + rewrite elem_of_read_docs. split.
      * intros (f & H). by exists walk, f.
      * intros (walk' & f & [= <-] & H). by exists f.
    + split; [intros H; by apply elem_of_nil in H |]. by intros (? & ? & ? & _).
  - apply build_no_chapters.
  - intros msg fs' self' Hbuild.
    assert (chapters fs name ≠ []) as Hdocs.
    { intros Hnone. destruct (build_no_chapters fs self name Hnone) as [msg' H].
      rewrite H in Hbuild. discriminate Hbuild. }
    split; [done |].
    destruct (build_novel_index_lookup fs self name name) as [Hcache _].
    rewrite Hbuild in Hcache. cbn [snd] in Hcache.
    by rewrite Hcache, decide_True.
Qed.

End Engine.

(** * Concrete runs *)

(** The class [\w] on ASCII: letters, digits and the underscore.  The
    texts below use only ASCII and CJK ideographs, where this table and
    the Unicode database keep the same characters. *)
Definition ascii_word (c : char) : bool :=
  ((48 <=? c) && (c <=? 57) || (65 <=? c) && (c <=? 90) ||
   (97 <=? c) && (c <=? 122) || (c =? 95))%N.

(** The collection "TestNovel" of the specification's scenario (§8). *)
Definition text_ch1 : pystr :=
  [0x4e91; 0x8212; 0x662f; 0x4e00; 0x4e2a; 0x4eba; 0x5de5; 0x667a; 0x80fd; 0x7cfb; 0x7edf]%N.
Definition text_ch2 : pystr :=
  [0x4eba; 0x5de5; 0x667a; 0x80fd; 0x6b63; 0x5728; 0x5feb; 0x901f; 0x53d1; 0x5c55]%N.
Definition query_ai : pystr := [0x4eba; 0x5de5; 0x667a; 0x80fd]%N.
Definition term_ai : pystr := [0x4eba; 0x5de5]%N.
Definition query_yunshu : pystr := [0x4e91; 0x8212]%N.

Definition ch1 : document :=
  {| content := text_ch1;
     doc_meta := {| path := py "TestNovel/ch1.txt"; filename := py "ch1.txt" |} |}.
Definition ch2 : document :=
  {| content := text_ch2;
     doc_meta := {| path := py "TestNovel/ch2.txt"; filename := py "ch2.txt" |} |}.
Definition test_docs : list document := [ch1; ch2].

Definition test_walk : list txtfile :=
  [ {| file := py "ch1.txt"; relpath := py "TestNovel/ch1.txt"; read := Some text_ch1 |};
    {| file := py "ch2.txt"; relpath := py "TestNovel/ch2.txt"; read := Some text_ch2 |} ].


Definition fresh_manager : MemoryManager := {| novels_root := py "novels"; engines := [] |}.

(** A root with two collections: "TestNovel" has a sidecar written by
    [save], "Draft" has one chapter and no sidecar. *)
Definition draft_walk : list txtfile :=
  [ {| file := py "d1.txt"; relpath := py "Draft/d1.txt"; read := Some text_ch2 |} ].

Definition two_novels : filesystem :=
  {| listing := Some [ (py "TestNovel", Dir test_walk); (py "Draft", Dir draft_walk) ];
     files := save (fit ascii_word 1.5 0.75 test_docs)
                   (_get_index_path fresh_manager (py "TestNovel")) ∅ |}.

(** A root whose only collection has a sidecar that [json.load] rejects. *)
Definition corrupt_novel : filesystem :=
  {| listing := Some [ (py "TestNovel", Dir test_walk) ];
     files := {[ _get_index_path fresh_manager (py "TestNovel") := None ]} |}.

(** Decides a closed membership or disequality by evaluation. *)
Ltac by_eval := solve [ refine (bool_decide_unpack _ _); vm_compute; exact I ].

Example tokenize_yunshu :
  _tokenize ascii_word [0x4e91; 0x8212; 0x7cfb; 0x7edf]%N =
  [ [0x4e91; 0x8212]; [0x8212; 0x7cfb]; [0x7cfb; 0x7edf] ]%N.
Proof. reflexivity. Qed.

Example tokenize_punctuation : _tokenize ascii_word (py "?! ,.") = [[]].
Proof. reflexivity. Qed.

Lemma usual_parameters : (0 < 1.5)%R ∧ (0 <= 0.75 <= 1)%R.
Proof. lra. Qed.


Lemma search_top_k_witness :
  scores_defined ascii_word 1.5 0.75 test_docs (_tokenize ascii_word query_ai) ∧
  ∃ results,
    search ascii_word (fit ascii_word 1.5 0.75 test_docs) query_ai 1 = Ok results ∧
    length results = Nat.min 1 (length (candidates ascii_word 1.5 0.75 test_docs query_ai)).
Proof.
  destruct usual_parameters as [Hk Hb].
  pose proof (usual_scores_defined ascii_word 1.5 0.75 test_docs Hk Hb
                (_tokenize ascii_word query_ai)) as Hdef.
  split; [exact Hdef |].
  destruct (search_top_k ascii_word 1.5 0.75 test_docs query_ai 1 Hdef)
    as (results & Hs & Hpos & _).
  exists results. split; [exact Hs |]. apply Hpos. lia.
Defined.

Lemma test_docs_candidates :
  length (candidates ascii_word 1.5 0.75 test_docs query_ai) = 2%nat.
Proof.
  destruct usual_parameters as [Hk Hb].
  assert (term_ai ∈ _tokenize ascii_word query_ai) as Hq by by_eval.
  unfold candidates, test_docs. cbn [map].
  rewrite filter_cons, decide_True.
  - rewrite filter_cons, decide_True; [done |]. cbn [fst].
    apply bm25_score_pos with (t := term_ai); [done | done | | done |].
    + apply list_elem_of_further, list_elem_of_here.
    + by_eval.
  - cbn [fst].
    apply bm25_score_pos with (t := term_ai); [done | done | | done |].
    + apply list_elem_of_here.
    + by_eval.
Qed.

(** C8, counterexample: with two positive-scoring candidates,
    [search(query, -1)] returns one result, not the empty sequence. *)
Lemma search_negative_top_k_nonempty :
  ∃ results,
    search ascii_word (fit ascii_word 1.5 0.75 test_docs) query_ai (-1) = Ok results ∧
    length results = 1%nat.
Proof.
  destruct usual_parameters as [Hk Hb].
  exists (py_prefix (sort_desc fst (candidates ascii_word 1.5 0.75 test_docs query_ai)) (-1)).
  split; [apply search_fit; by apply usual_scores_defined |].
  rewrite py_prefix_neg by lia.
  by rewrite length_take, sort_desc_length, test_docs_candidates.
Qed.


Lemma tokens_nonempty_avgdl_positive_witness :
  test_docs ≠ [] ∧
  (1 ≤ length (_tokenize ascii_word (py "?!")))%nat ∧
  (1 <= avgdl (fit ascii_word 1.5 0.75 test_docs))%R.
Proof.
  assert (test_docs ≠ []) as Hne by discriminate.
  destruct (tokens_nonempty_avgdl_positive ascii_word 1.5 0.75 test_docs (py "?!"))
    as (Htok & _ & _ & Hfit & _).
  destruct (Hfit Hne) as [_ Havg].
  split_and!; assumption.
Defined.







Lemma preload_two_novels :
  _preload_indices two_novels fresh_manager =
  {| novels_root := py "novels";
     engines := [ (py "TestNovel", fit ascii_word 1.5 0.75 test_docs) ] |}.
Proof.
  unfold two_novels. generalize (fit ascii_word 1.5 0.75 test_docs). intros engine.
  unfold _preload_indices. cbn [listing foldl].
  unfold preload_item at 2. cbn [fst snd files].
  rewrite decide_True by (unfold save; rewrite lookup_insert_eq; eauto).
  rewrite load_save.
  unfold preload_item. cbn [fst snd files].
  rewrite decide_False; [reflexivity |].
  unfold save. rewrite lookup_insert_ne by by_eval.
  rewrite lookup_empty. by intros [? ?].
Qed.

Lemma after_discovery_two_novels :
  after_discovery ascii_word two_novels fresh_manager =
  (two_novels,
   {| novels_root := py "novels";
      engines := [ (py "TestNovel", fit ascii_word 1.5 0.75 test_docs) ] |}).
Proof. unfold after_discovery. by rewrite preload_two_novels. Qed.

(** C3, counterexample: the root holds the directories "TestNovel"
    (with a sidecar) and "Draft" (one chapter, no sidecar, not cached).
    [search_all] ends with "TestNovel" as the only cached collection:
    "Draft" was not built, and the file system is as before. *)
Lemma search_all_leaves_draft_unbuilt :
  ∃ r self',
    search_all ascii_word two_novels fresh_manager query_ai 3 = (r, two_novels, self') ∧
    (engines self').*1 = [py "TestNovel"] ∧
    novel_dir two_novels (py "Draft") = Some draft_walk ∧
    dict_lookup (py "Draft") (engines fresh_manager) = None ∧
    dict_lookup (py "Draft") (engines self') = None ∧
    files two_novels !! _get_index_path fresh_manager (py "Draft") = None.
Proof.
  eexists _, _. rewrite search_all_unfold, after_discovery_two_novels.
  split_and!; reflexivity.
Qed.

(** C4, failing input: the sidecar of "TestNovel" holds content that
    [json.load] rejects.  The constructor's [_preload_indices] absorbs the
    error and leaves the cache empty; [query] on the same collection
    raises it to the caller. *)
Lemma query_corrupt_sidecar_raises :
  init corrupt_novel (py "novels") = fresh_manager ∧
  query ascii_word corrupt_novel fresh_manager (py "TestNovel") query_ai 3 =
    (Raise JSONDecodeError, corrupt_novel, fresh_manager).
Proof.
  assert (files corrupt_novel !! _get_index_path fresh_manager (py "TestNovel") = Some None)
    as Hfile by apply lookup_singleton_eq.
  split.
  - unfold init, _preload_indices. cbn [listing corrupt_novel foldl].
    unfold preload_item. cbn [fst snd].
    fold fresh_manager. fold corrupt_novel.
    rewrite decide_True by (rewrite Hfile; eauto).
    unfold load. by rewrite Hfile.
  - unfold query. cbn [engines fresh_manager dict_lookup find fmap option_fmap option_map].
    rewrite decide_True by (rewrite Hfile; eauto).
    unfold load. by rewrite Hfile.
Qed.

(** ** Runs for the further properties *)

(** A root whose only collection, "Draft", has one chapter and no
    sidecar, and the state a build of it leaves. *)
Definition draft_only : filesystem :=
  {| listing := Some [ (py "Draft", Dir draft_walk) ]; files := ∅ |}.

Definition draft_docs : list document :=
  [ {| content := text_ch2;
       doc_meta := {| path := py "Draft/d1.txt"; filename := py "d1.txt" |} |} ].

Definition draft_built : filesystem :=
  {| listing := listing draft_only;
     files := save (fit ascii_word 1.5 0.75 draft_docs)
                   (_get_index_path fresh_manager (py "Draft")) (files draft_only) |}.

Definition draft_manager : MemoryManager :=
  set_engine fresh_manager (py "Draft") (fit ascii_word 1.5 0.75 draft_docs).

(** The score of the first chapter of "TestNovel" for the query. *)
Definition score_ch1 : R :=
  bm25_score ascii_word 1.5 0.75 test_docs (idf (fit ascii_word 1.5 0.75 test_docs))
    (_tokenize ascii_word query_ai) ch1.

Lemma build_draft :
  ∃ msg, build_novel_index ascii_word draft_only fresh_manager (py "Draft") =
         ((true, msg), draft_built, draft_manager).
Proof.
  eexists. rewrite build_novel_index_unfold.
  assert (novel_dir draft_only (py "Draft") = Some draft_walk) as -> by reflexivity.
  assert (foldl read_step [] draft_walk = draft_docs) as -> by reflexivity.
  unfold draft_docs, draft_built, draft_manager, draft_docs. reflexivity.
Qed.

Lemma search_test_docs top_k :
  search ascii_word (fit ascii_word 1.5 0.75 test_docs) query_ai top_k =
  Ok (py_prefix (sort_desc fst (candidates ascii_word 1.5 0.75 test_docs query_ai)) top_k).
Proof.
  destruct usual_parameters as [Hk Hb]. apply search_fit. by apply usual_scores_defined.
Qed.

Lemma query_draft top_k :
  query ascii_word draft_built draft_manager (py "Draft") query_ai top_k =
  (Ok (map (format_hit (py "Draft"))
         (py_prefix (sort_desc fst (candidates ascii_word 1.5 0.75 draft_docs query_ai))
            top_k)),
   draft_built, draft_manager).
Proof.
  assert (dict_lookup (py "Draft") (engines draft_manager) =
          Some (fit ascii_word 1.5 0.75 draft_docs)) as H by apply dict_lookup_set_eq.
  rewrite query_hit by (rewrite H; eauto).
  by rewrite (query_cached_fit ascii_word _ _ _ _ _ H).
Qed.

Lemma search_all_two_novels top_k :
  search_all ascii_word two_novels fresh_manager query_ai top_k =
  (Ok (py_prefix
         (sort_desc score
            (concat [ map (format_hit (py "TestNovel"))
                        (py_prefix
                           (sort_desc fst
                              (candidates ascii_word 1.5 0.75 test_docs query_ai))
                           top_k) ]))
         top_k),
   two_novels,
   {| novels_root := py "novels";
      engines := [ (py "TestNovel", fit ascii_word 1.5 0.75 test_docs) ] |}).
Proof.
  rewrite search_all_unfold, after_discovery_two_novels. cbn [fst snd engines].
  change ([(py "TestNovel", fit ascii_word 1.5 0.75 test_docs)].*1) with [py "TestNovel"].
  cbn [for_each].
  rewrite (query_cached_fit ascii_word _ (py "TestNovel") test_docs)
    by exact (dict_lookup_set_eq (py "TestNovel") _ []).
  by rewrite !bind_Ok.
Qed.

Lemma ch1_in_candidates :
  (score_ch1, ch1) ∈ candidates ascii_word 1.5 0.75 test_docs query_ai.
Proof.
  destruct usual_parameters as [Hk Hb].
  assert (term_ai ∈ _tokenize ascii_word query_ai) as Hq by by_eval.
  unfold candidates. apply list_elem_of_filter. split.
  - cbn [fst]. apply bm25_score_pos with (t := term_ai); [done | done | | done |].
    + apply list_elem_of_here.
    + by_eval.
  - unfold test_docs. cbn [map]. apply list_elem_of_here.
Qed.

Lemma two_novels_consistent : consistent ascii_word two_novels fresh_manager.
Proof.
  split; [| constructor]. unfold two_novels. cbn [files].
  apply save_fitted; [by eexists |].
  intros path j H. by rewrite lookup_empty in H.
Qed.

Lemma first_search_draft_returns :
  ∃ hits, (search_all ascii_word draft_only fresh_manager query_ai 1).1.1 = Ok hits.
Proof.
  rewrite search_all_unfold. cbn [fst].
  destruct (for_each_Ok
              (λ n, query_cached ascii_word
                      (after_discovery ascii_word draft_only fresh_manager).2 n query_ai 1)
              (engines (after_discovery ascii_word draft_only fresh_manager).2).*1)
    as [rs ->].
  { intros n Hn. eapply query_cached_consistent.
    - apply after_discovery_consistent. split; [| constructor].
      intros path j Hj. unfold draft_only in Hj. cbn [files] in Hj.
      by rewrite lookup_empty in Hj.
    - by apply dict_lookup_is_Some. }
  rewrite bind_Ok. eauto.
Qed.

Lemma token_chars_kept_witness :
  py "ab" ∈ _tokenize ascii_word (py "a, b") ∧ 98%N ∈ py "ab" ∧
  keep_char ascii_word 98%N = true.
Proof.
  assert (py "ab" ∈ _tokenize ascii_word (py "a, b")) as Htok by by_eval.
  assert (98%N ∈ py "ab") as Hc by by_eval.
  split; [exact Htok |]. split; [exact Hc |].
  exact (token_chars_kept ascii_word _ _ _ Htok Hc).
Defined.

Lemma search_results_sound_witness :
  ∃ results,
    search ascii_word (fit ascii_word 1.5 0.75 test_docs) query_ai 3 = Ok results ∧
    Forall (λ p, (0 < p.1)%R ∧ p.2 ∈ documents (fit ascii_word 1.5 0.75 test_docs))
      results ∧
    StronglySorted (desc fst) results ∧
    (length results ≤ Z.to_nat (doc_count (fit ascii_word 1.5 0.75 test_docs)))%nat.
Proof.
  eexists. split; [apply search_test_docs |].
  apply (search_results_sound ascii_word _ query_ai 3). apply search_test_docs.
Defined.

Lemma search_top_k_prefix_witness :
  0 ≤ 1 ≤ 3 ∧
  search ascii_word (fit ascii_word 1.5 0.75 test_docs) query_ai 1 =
  Ok (take (Z.to_nat 1)
        (py_prefix (sort_desc fst (candidates ascii_word 1.5 0.75 test_docs query_ai)) 3)).
Proof.
  assert (0 ≤ 1 ≤ 3) as Hk by lia.
  split; [exact Hk |].
  exact (search_top_k_prefix ascii_word _ query_ai 1 3 _ Hk (search_test_docs 3)).
Defined.



Lemma rarer_term_higher_idf_witness :
  0 < df ascii_word test_docs query_yunshu ≤ df ascii_word test_docs term_ai ∧
  ∃ wt wu,
    idf (fit ascii_word 1.5 0.75 test_docs) !! query_yunshu = Some wt ∧
    idf (fit ascii_word 1.5 0.75 test_docs) !! term_ai = Some wu ∧
    (wu <= wt)%R.
Proof.
  assert (0 < df ascii_word test_docs query_yunshu ≤ df ascii_word test_docs term_ai)
    as H by by_eval.
  split; [exact H |].
  exact (rarer_term_higher_idf ascii_word 1.5 0.75 test_docs _ _ H).
Defined.


Lemma build_keeps_other_sidecars_witness :
  plain_name (py "Draft") = true ∧ plain_name (py "TestNovel") = true ∧
  py "TestNovel" ≠ py "Draft" ∧
  _get_index_path fresh_manager (py "TestNovel") ≠
    _get_index_path fresh_manager (py "Draft") ∧
  load (_get_index_path fresh_manager (py "TestNovel"))
    (files (build_novel_index ascii_word two_novels fresh_manager (py "Draft")).1.2) =
  load (_get_index_path fresh_manager (py "TestNovel")) (files two_novels).
Proof.
  assert (plain_name (py "Draft") = true) as Hname by (vm_compute; reflexivity).
  assert (plain_name (py "TestNovel") = true) as Hother by (vm_compute; reflexivity).
  assert (py "TestNovel" ≠ py "Draft") as Hne by by_eval.
  split; [exact Hname |]. split; [exact Hother |]. split; [exact Hne |].
  exact (build_keeps_other_sidecars ascii_word two_novels fresh_manager _ _
           Hname Hother Hne).
Defined.

Lemma preload_cache_entry_witness :
  dict_lookup (py "TestNovel") (engines (_preload_indices two_novels fresh_manager)) =
  match listing two_novels,
        load (_get_index_path fresh_manager (py "TestNovel")) (files two_novels) with
  | Some items, Ok e =>
      if decide (Exists (λ item, item.1 = py "TestNovel" ∧ is_dir item.2 = true) items)
      then Some e else dict_lookup (py "TestNovel") (engines fresh_manager)
  | _, _ => dict_lookup (py "TestNovel") (engines fresh_manager)
  end.
Proof.
  apply preload_cache_entry. intros j Hj.
  unfold two_novels, save in Hj. cbn [files] in Hj.
  rewrite lookup_insert_eq in Hj. injection Hj as <-. eauto.
Defined.

Lemma built_index_preloaded_witness :
  plain_name (py "Draft") = true ∧
  ∃ engine,
    dict_lookup (py "Draft") (engines draft_manager) = Some engine ∧
    dict_lookup (py "Draft") (engines (init draft_built (novels_root fresh_manager)))
      = Some engine.
Proof.
  assert (plain_name (py "Draft") = true) as Hname by (vm_compute; reflexivity).
  split; [exact Hname |].
  destruct build_draft as [msg H].
  exact (built_index_preloaded ascii_word _ _ _ _ _ _ Hname H).
Defined.

Lemma query_after_build_witness :
  ∃ walk,
    novel_dir draft_only (py "Draft") = Some walk ∧
    query ascii_word draft_built draft_manager (py "Draft") query_ai 3 =
    (Ok (map (format_hit (py "Draft"))
           (py_prefix
              (sort_desc fst
                 (candidates ascii_word 1.5 0.75 (foldl read_step [] walk) query_ai))
              3)),
     draft_built, draft_manager).
Proof.
  destruct build_draft as [msg H].
  exact (query_after_build ascii_word _ _ _ _ _ _ query_ai 3 H).
Defined.

Lemma query_builds_on_the_fly_witness :
  plain_name (py "Draft") = true ∧
  query ascii_word draft_only fresh_manager (py "Draft") query_ai 3 =
  (Ok (map (format_hit (py "Draft"))
         (py_prefix
            (sort_desc fst
               (candidates ascii_word 1.5 0.75 (chapters draft_only (py "Draft"))
                  query_ai))
            3)),
   draft_built, draft_manager).
Proof.
  assert (plain_name (py "Draft") = true) as Hname by (vm_compute; reflexivity).
  assert (dict_lookup (py "Draft") (engines fresh_manager) = None) as Hcache
    by reflexivity.
  assert (files draft_only !! _get_index_path fresh_manager (py "Draft") = None) as Hfile
    by apply lookup_empty.
  split; [exact Hname |].
  destruct build_draft as [msg Hbuild].
  destruct (query_builds_on_the_fly ascii_word draft_only fresh_manager (py "Draft")
              query_ai 3 Hname Hcache Hfile) as [_ Hret].
  exact (Hret msg draft_built draft_manager Hbuild).
Defined.

Lemma query_hits_wellformed_witness :
  ∃ hits,
    (query ascii_word draft_built draft_manager (py "Draft") query_ai 3).1.1 = Ok hits ∧
    Forall (λ h, novel h = py "Draft" ∧ (0 < score h)%R ∧
                 (3 ≤ length (preview h) ≤ 203)%nat) hits ∧
    StronglySorted (desc score) hits ∧
    (0 ≤ 3 → (length hits ≤ Z.to_nat 3)%nat).
Proof.
  assert ((query ascii_word draft_built draft_manager (py "Draft") query_ai 3).1.1 =
          Ok (map (format_hit (py "Draft"))
                (py_prefix
                   (sort_desc fst (candidates ascii_word 1.5 0.75 draft_docs query_ai))
                   3))) as H by (by rewrite query_draft).
  eexists. split; [exact H |].
  exact (query_hits_wellformed ascii_word _ _ _ _ _ _ H).
Defined.

Lemma search_all_hits_wellformed_witness :
  ∃ hits,
    (search_all ascii_word two_novels fresh_manager query_ai 1).1.1 = Ok hits ∧
    Forall (λ h, is_Some (dict_lookup (novel h)
                            (engines (search_all ascii_word two_novels fresh_manager
                                        query_ai 1).2)) ∧
                 (0 < score h)%R ∧ (3 ≤ length (preview h) ≤ 203)%nat) hits ∧
    StronglySorted (desc score) hits ∧
    (0 ≤ 1 → (length hits ≤ Z.to_nat 1)%nat).
Proof.
  assert (∃ hits, (search_all ascii_word two_novels fresh_manager query_ai 1).1.1 = Ok hits)
    as [hits H] by (rewrite search_all_two_novels; by eexists).
  exists hits. split; [exact H |].
  exact (search_all_hits_wellformed ascii_word _ _ _ _ _ H).
Defined.

Lemma search_all_first_is_best_witness :
  ∃ hits h,
    (search_all ascii_word two_novels fresh_manager query_ai 1).1.1 = Ok hits ∧
    head hits = Some h ∧ (score_ch1 <= score h)%R.
Proof.
  assert (∃ hits, (search_all ascii_word two_novels fresh_manager query_ai 1).1.1 = Ok hits)
    as [hits H] by (rewrite search_all_two_novels; by eexists).
  assert (dict_lookup (py "TestNovel")
            (engines (search_all ascii_word two_novels fresh_manager query_ai 1).2) =
          Some (fit ascii_word 1.5 0.75 test_docs)) as He.
  { rewrite search_all_two_novels. cbn [snd engines].
    exact (dict_lookup_set_eq (py "TestNovel") _ []). }
  assert ((score_ch1, ch1) ∈
          py_prefix (sort_desc fst (candidates ascii_word 1.5 0.75 test_docs query_ai)) 2)
    as Hr.
  { rewrite py_prefix_nonneg by lia.
    rewrite take_ge by (rewrite sort_desc_length, test_docs_candidates; lia).
    rewrite sort_desc_perm. apply ch1_in_candidates. }
  assert (1 ≤ 1) as Hk by lia.
  destruct (search_all_first_is_best ascii_word _ _ _ _ _ _ _ _ _ _
              Hk H He (search_test_docs 2) Hr) as (h & Hhead & Hle).
  exists hits, h. split; [exact H |]. split; [exact Hhead | exact Hle].
Defined.

Lemma consistent_init_build_witness :
  sidecars_fitted ascii_word (files two_novels) ∧
  (∀ root, consistent ascii_word two_novels (init two_novels root)) ∧
  (∀ self name, consistent ascii_word two_novels self →
     consistent ascii_word (build_novel_index ascii_word two_novels self name).1.2
       (build_novel_index ascii_word two_novels self name).2).
Proof.
  destruct two_novels_consistent as [Hfiles _].
  split; [exact Hfiles |].
  exact (consistent_init_build ascii_word two_novels Hfiles).
Defined.


Lemma search_all_consistent_witness :
  ∃ hits,
    search_all ascii_word two_novels fresh_manager query_ai 1 =
      (Ok hits, two_novels, _preload_indices two_novels fresh_manager).
Proof.
  destruct (search_all_consistent ascii_word two_novels fresh_manager query_ai 1
              two_novels_consistent) as [Hno _].
  apply Hno. left. rewrite preload_two_novels. discriminate.
Defined.

Lemma search_all_builds_library_witness :
  dict_lookup (py "Draft")
    (engines (search_all ascii_word draft_only fresh_manager query_ai 1).2) =
    Some (fit ascii_word 1.5 0.75 (chapters draft_only (py "Draft"))) ∧
  load (_get_index_path fresh_manager (py "Draft"))
    (files (search_all ascii_word draft_only fresh_manager query_ai 1).1.2) =
    Ok (fit ascii_word 1.5 0.75 (chapters draft_only (py "Draft"))).
Proof.
  assert (engines (_preload_indices draft_only fresh_manager) = []) as Hpre by reflexivity.
  assert (plain_name (py "Draft") = true) as Hname by (vm_compute; reflexivity).
  assert (Forall (λ item : pystr * entry, plain_name item.1 = true)
            [ (py "Draft", Dir draft_walk) ]) as Hitems
    by (constructor; [exact Hname | constructor]).
  destruct (first_search_draft_returns) as [hits Hret].
  pose proof (search_all_builds_library ascii_word draft_only fresh_manager query_ai 1
                [ (py "Draft", Dir draft_walk) ] (py "Draft") hits
                eq_refl Hitems Hname Hpre Hret) as H.
  cbv zeta in H. rewrite decide_True in H; [exact H |].
  split.
  - apply Exists_cons_hd. split; reflexivity.
  - intros Hc. vm_compute in Hc. discriminate Hc.
Defined.

Lemma build_reads_txt_files_witness :
  plain_name (py "Draft") = true ∧
  chapters draft_only (py "Draft") ≠ [] ∧
  dict_lookup (py "Draft") (engines draft_manager) =
    Some (fit ascii_word 1.5 0.75 (chapters draft_only (py "Draft"))).
Proof.
  assert (plain_name (py "Draft") = true) as Hname by (vm_compute; reflexivity).
  split; [exact Hname |].
  destruct build_draft as [msg Hbuild].
  destruct (build_reads_txt_files ascii_word draft_only fresh_manager (py "Draft") Hname)
    as (_ & _ & Hsuccess).
  exact (Hsuccess msg draft_built draft_manager Hbuild).
Defined.

Lemma build_novel_index_outcomes_witness :
  plain_name (py "Draft") = true ∧
  ∃ msg fs' self',
    build_novel_index ascii_word draft_only fresh_manager (py "Draft") =
      ((true, msg), fs', self') ∧
    load (_get_index_path fresh_manager (py "Draft")) (files fs') =
      Ok (fit ascii_word 1.5 0.75 (foldl read_step [] draft_walk)) ∧
    dict_lookup (py "Draft") (engines self') =
      Some (fit ascii_word 1.5 0.75 (foldl read_step [] draft_walk)).
Proof.
  assert (plain_name (py "Draft") = true) as Hname by (vm_compute; reflexivity).
  split; [exact Hname |].
  pose proof (build_novel_index_outcomes ascii_word draft_only fresh_manager (py "Draft")
                Hname) as H.
  cbv zeta in H. destruct H as (_ & _ & _ & Hbuild & _).
  assert (foldl read_step [] draft_walk ≠ []) as Hdocs
    by (intros Hc; vm_compute in Hc; discriminate Hc).
  destruct (build_novel_index ascii_word draft_only fresh_manager (py "Draft"))
    as [[outcome fs'] self'] eqn:Hout.
  destruct (Hbuild draft_walk eq_refl Hdocs outcome fs' self' eq_refl) as (-> & -> & ->).
  eexists _, _, _. split; [reflexivity |].
  cbn [files engines set_engine]. split; [apply load_save | apply dict_lookup_set_eq].
Defined.
